(** * TESDumpStats: the plugin walker and its statistics

    A shallow embedding of the structural core of [TESDumpStats.py]:
    the [FileReader] convenience reads, [dumpGRUPOrRecord],
    [dumpSubRecords] and the walking loop of [dumpPlugin], together with
    the statistics dictionaries they fill in.

    Python exceptions are modelled by an error result that keeps the
    state reached when the exception was raised: the dictionaries are
    mutated in place by the source, so what was written before a raise
    stays written. The loops run on a budget that is shown to be
    enough; the recursion runs in the room that the recursion limit of
    the interpreter leaves, a parameter of the walker. *)

From Stdlib Require Import ZArith List Lia Bool.
From Stdlib Require Import Strings.String Strings.Ascii Strings.Byte.
From stdpp Require Import base option list strings gmap fin_maps pretty.

Open Scope Z_scope.

(** ** Python values and exceptions *)

(** The exceptions the modelled code can raise. *)
Inductive exn : Type :=
| StructError          (* struct.error: wrong buffer length for unpack *)
| UnicodeDecodeError   (* bytes.decode('ascii') on a byte above 0x7f *)
| ZlibError            (* zlib.error from zlib.decompress *)
| TypeError            (* int + 1 on a non-int *)
| AttributeError       (* .append / .setdefault on a wrong object *)
| KeyError             (* dict[key] on a missing key *)
| OSError              (* seek to a negative offset *)
| RecursionError.      (* a call beyond the recursion limit *)

(** Result of a computation: a value, a raised exception, or the
    exhaustion of the loop budget of the model (never of Python). *)
Inductive res (A : Type) : Type :=
| Ok (a : A)
| Raise (e : exn)
| Fuel.
Arguments Ok {A} a.
Arguments Raise {A} e.
Arguments Fuel {A}.

(** State-and-exception monad: the state survives a raise. *)
Definition ST (S A : Type) : Type := S → res A * S.

Definition ret {S A} (a : A) : ST S A := λ s, (Ok a, s).
Definition raise {S A} (e : exn) : ST S A := λ s, (Raise e, s).
Definition out_of_fuel {S A} : ST S A := λ s, (Fuel, s).
Definition bind {S A B} (m : ST S A) (k : A → ST S B) : ST S B :=
  λ s, match m s with
       | (Ok a, s') => k a s'
       | (Raise e, s') => (Raise e, s')
       | (Fuel, s') => (Fuel, s')
       end.
Definition lift {S A} (r : res A) : ST S A := λ s, (r, s).
Definition gets {S A} (f : S → A) : ST S A := λ s, (Ok (f s), s).
Definition modify {S} (f : S → S) : ST S unit := λ s, (Ok tt, f s).

Notation "'do' x <- m ; k" := (bind m (λ x, k))
  (at level 10, x name, m at level 100, k at level 200).
Notation "'do' ' p <- m ; k" := (bind m (λ x, match x with p => k end))
  (at level 10, p pattern, m at level 100, k at level 200).
Notation "m ;;; k" := (bind m (λ _, k))
  (at level 100, k at level 200, right associativity).

(** ** Bytes, [struct.unpack] and [bytes.decode] *)

#[global] Instance byte_eq_dec : EqDecision byte.
Proof.
  intros a b. destruct (Byte.eqb a b) eqn:E.
  - left. now apply Byte.byte_dec_bl.
  - right. intros Hab. apply Byte.byte_dec_lb in Hab. congruence.
Defined.

Definition byte_val (b : byte) : Z := Z.of_N (Byte.to_N b).

(** Little-endian value of a byte string (the reference platform of the
    plugin format; the source uses native order on such a machine). *)
Fixpoint le_value (bs : list byte) : Z :=
  match bs with
  | [] => 0
  | b :: bs' => byte_val b + 256 * le_value bs'
  end.

(** [struct.unpack(fmt, b)[0]] for an unsigned format of [width] bytes. *)
Definition unpack_unsigned (width : nat) (b : list byte) : res Z :=
  if decide (length b = width) then Ok (le_value b) else Raise StructError.

(** [struct.unpack(fmt, b)[0]] for a signed format of [width] bytes. *)
Definition unpack_signed (width : nat) (b : list byte) : res Z :=
  if decide (length b = width) then
    let v := le_value b in
    let half := 2 ^ (8 * Z.of_nat width - 1) in
    Ok (if v <? half then v else v - 2 * half)
  else Raise StructError.

(** [b.decode('ascii')] *)
Definition decode_ascii (b : list byte) : res string :=
  if forallb (λ x, byte_val x <? 128) b
  then Ok (string_of_list_byte b)
  else Raise UnicodeDecodeError.

(** [data[a:b]] for [0 <= a]. *)
Definition slice (data : list byte) (a b : Z) : list byte :=
  take (Z.to_nat (b - a)) (drop (Z.to_nat a) data).

(** ** The file object *)

Record FileReader : Type := mkFile { content : list byte; position : Z }.

Definition set_position (p : Z) (f : FileReader) : FileReader :=
  mkFile (content f) p.

(** The most bytes one call of [read] returns: [io.FileIO.read(n)] is
    one [read(2)] system call, which Linux cuts at 0x7ffff000 bytes. *)
Abbreviation READ_MAX := 0x7ffff000.

(** [io.FileIO.read(n)] on a regular file: the bytes from the cursor on,
    at most [n] of them and at most [READ_MAX], the cursor moved past
    what was returned; a negative [n] asks for all that is left
    ([readall]). *)
Definition file_read (n : Z) (f : FileReader) : list byte * FileReader :=
  let rest := drop (Z.to_nat (position f)) (content f) in
  let out := if n <? 0 then rest
             else take (Z.to_nat (Z.min n READ_MAX)) rest in
  (out, set_position (position f + Z.of_nat (length out)) f).

Definition read (n : Z) : ST FileReader (list byte) :=
  λ f, let (out, f') := file_read n f in (Ok out, f').

(** [tell()] *)
Definition tell : ST FileReader Z := gets position.

(** [seek(p)]: a negative offset is refused with an [OSError]. *)
Definition seek (p : Z) : ST FileReader unit :=
  if p <? 0 then raise OSError else modify (set_position p).

(** The convenience readers of [FileReader]:
    [struct.unpack(fmt, self.read(width))[0]], for a format of [width]
    bytes, signed or not. *)
Definition readFixed (width : nat) (signed : bool) : ST FileReader Z :=
  do b <- read (Z.of_nat width);
  lift (if signed then unpack_signed width b else unpack_unsigned width b).

Definition readUByte : ST FileReader Z := readFixed 1 false.
Definition readUInt16 : ST FileReader Z := readFixed 2 false.
Definition readUInt32 : ST FileReader Z := readFixed 4 false.
Definition readUInt64 : ST FileReader Z := readFixed 8 false.
Definition readByte : ST FileReader Z := readFixed 1 true.
Definition readInt16 : ST FileReader Z := readFixed 2 true.
Definition readInt32 : ST FileReader Z := readFixed 4 true.
Definition readInt64 : ST FileReader Z := readFixed 8 true.

(** ** The statistics dictionaries *)

(** What the dictionaries of one record type hold: ['count'] and
    ['compressed'] are ints, ['sizes'] a list, and a subrecord type maps
    to a dictionary with the lists ['sizes'] and ['counts']. *)
Inductive PyVal : Type :=
| VInt (n : Z)
| VList (l : list Z)
| VDict (d : gmap string (list Z)).

Abbreviation RecDict := (gmap string PyVal).
Abbreviation Stats := (gmap string (gmap string PyVal)).

(** [d.get(k, v)] *)
Definition dict_get (k : string) (dflt : PyVal) : ST RecDict PyVal :=
  gets (λ s, default dflt (s !! k)).

(** [d[k] = v] *)
Definition dict_set (k : string) (v : PyVal) : ST RecDict unit :=
  modify (λ s, <[k := v]> s).

(** [v + 1] *)
Definition py_succ (v : PyVal) : res PyVal :=
  match v with
  | VInt n => Ok (VInt (n + 1))
  | _ => Raise TypeError
  end.

(** [d.setdefault(k, []).append(x)] on the dictionary of a record type. *)
Definition setdefault_append (k : string) (x : Z) : ST RecDict unit :=
  λ s, match s !! k with
       | None => (Ok tt, <[k := VList [x]]> s)
       | Some (VList l) => (Ok tt, <[k := VList (l ++ [x])]> s)
       | Some _ => (Raise AttributeError, s)
       end.

(** [s = stats.setdefault(subType, dict())]: the alias [s] is the entry
    of [subType], which is created empty when missing. *)
Definition setdefault_dict (subType : string) : ST RecDict unit :=
  λ s, match s !! subType with
       | None => (Ok tt, <[subType := VDict ∅]> s)
       | Some _ => (Ok tt, s)
       end.

(** [stats[subType].setdefault(k, []).append(x)] *)
Definition sub_setdefault_append (subType k : string) (x : Z)
  : ST RecDict unit :=
  λ s, match s !! subType with
       | None => (Raise KeyError, s)
       | Some (VDict d) =>
           (Ok tt, <[subType := VDict (<[k := default [] (d !! k) ++ [x]]> d)]> s)
       | Some _ => (Raise AttributeError, s)
       end.

(** The local dictionary [counts] of [dumpSubRecords]: keys in insertion
    order, as a Python dict iterates them. *)
Fixpoint counts_get (counts : list (string * Z)) (k : string) : Z :=
  match counts with
  | [] => 0
  | (k', n) :: rest => if decide (k' = k) then n else counts_get rest k
  end.

Fixpoint counts_set (counts : list (string * Z)) (k : string) (n : Z)
  : list (string * Z) :=
  match counts with
  | [] => [(k, n)]
  | (k', n') :: rest =>
      if decide (k' = k) then (k', n) :: rest
      else (k', n') :: counts_set rest k n
  end.

Fixpoint for_each {S A} (l : list A) (body : A → ST S unit) : ST S unit :=
  match l with
  | [] => ret tt
  | x :: l' => body x ;;; for_each l' body
  end.

(** ** [dumpSubRecords] *)

Definition XXXX : string := "XXXX"%string.

Definition res_bind {A B} (r : res A) (k : A → res B) : res B :=
  match r with
  | Ok a => k a
  | Raise e => Raise e
  | Fuel => Fuel
  end.

(** The head of one iteration, which only computes on locals: from
    [subType = data[pos:pos+4].decode('ascii')] to the end of the
    [if subType == 'XXXX'] statement. It yields [subSize], [subType] and
    the new [pos]. *)
Definition sub_header (data : list byte) (pos : Z) : res (Z * string * Z) :=
  res_bind (decode_ascii (slice data pos (pos + 4))) (λ subType,
    let pos := pos + 4 in
    if decide (subType = XXXX) then
      res_bind (unpack_unsigned 4 (slice data pos (pos + 4))) (λ subSize,
        let pos := pos + 4 in
        res_bind (decode_ascii (slice data pos (pos + 4))) (λ subType,
          let pos := pos + 4 in
          let pos := pos + 2 in
          Ok (subSize, subType, pos)))
    else
      res_bind (unpack_unsigned 2 (slice data pos (pos + 2))) (λ subSize,
        let pos := pos + 2 in
        Ok (subSize, subType, pos))).

(** The [while pos < size - 6] loop; it returns [counts]. One unit of
    [fuel] is spent per iteration. *)
Fixpoint dumpSubRecords_loop (fuel : nat) (data : list byte) (pos : Z)
    (counts : list (string * Z)) : ST RecDict (list (string * Z)) :=
  let size := Z.of_nat (length data) in
  if pos <? size - 6 then
    match fuel with
    | O => out_of_fuel
    | S fuel' =>
        do '(subSize, subType, pos) <- lift (sub_header data pos);
        if pos + subSize >? size then ret counts
        else
          let pos := pos + subSize in
          setdefault_dict subType ;;;
          let num := counts_get counts subType in
          let counts := counts_set counts subType (num + 1) in
          sub_setdefault_append subType "sizes" subSize ;;;
          dumpSubRecords_loop fuel' data pos counts
    end
  else ret counts.

Definition dumpSubRecords (data : list byte) : ST RecDict unit :=
  do counts <- dumpSubRecords_loop (length data) data 0 [];
  for_each counts (λ kv, sub_setdefault_append kv.1 "counts" kv.2).

(** ** [dumpGRUPOrRecord] and the loop of [dumpPlugin] *)

Record World : Type := mkWorld {
  ins : FileReader;
  stats : gmap string (gmap string PyVal)
}.

(** An operation on the file object [ins]. *)
Definition on_file {A} (m : ST FileReader A) : ST World A :=
  λ w, let (r, f') := m (ins w) in (r, mkWorld f' (stats w)).

(** An operation on [s], where [s = stats.setdefault(Type, dict())]:
    [s] aliases the entry of [Type], so the operation is on that entry. *)
Definition on_record {A} (Type_ : string) (m : ST RecDict A) : ST World A :=
  λ w, let (r, s') := m (default ∅ (stats w !! Type_)) in
       (r, mkWorld (ins w) (<[Type_ := s']> (stats w))).

Definition GRUP : list byte := list_byte_of_string "GRUP".

(** [while ins.tell() < limit: body] *)
Fixpoint while_tell_lt (fuel : nat) (limit : Z) (body : ST World unit)
  : ST World unit :=
  match fuel with
  | O => out_of_fuel
  | S fuel' =>
      do pos <- on_file tell;
      if pos <? limit then body ;;; while_tell_lt fuel' limit body
      else ret tt
  end.

Section Walker.

(** [zlib.decompress]: the inflated bytes, or [None] for [zlib.error]. *)
Variable zlib_decompress : list byte → option (list byte).

Definition decompress (b : list byte) : res (list byte) :=
  match zlib_decompress b with
  | Some d => Ok d
  | None => Raise ZlibError
  end.

(** The statistics part of a record that is not deleted (the body of
    [if not flags & 0x20]). *)
Definition dumpRecordData (Type_ : string) (dataSize flags : Z)
  : ST World unit :=
  on_record Type_ (ret tt) ;;;
  do num <- on_record Type_ (dict_get "count" (VInt 0));
  do num1 <- lift (py_succ num);
  on_record Type_ (dict_set "count" num1) ;;;
  do data <- on_file (read dataSize);
  do data <-
    (if Z.land flags 0x00040000 =? 0 then ret data
     else
       do uncompSize <- lift (unpack_unsigned 4 (slice data 0 4));
       do data <- lift (decompress (drop 4 data));
       do num <- on_record Type_ (dict_get "compressed" (VInt 0));
       do num1 <- lift (py_succ num);
       on_record Type_ (dict_set "compressed" num1) ;;;
       ret data);
  on_record Type_ (setdefault_append "sizes" (Z.of_nat (length data))) ;;;
  on_record Type_ (dumpSubRecords data).

(** The same statements as they act on [s] alone, given the bytes that
    [ins.read(dataSize)] returned (the read and the updates of [s] do not
    touch each other; see [dumpRecordData_eq]). *)
Definition record_stats (flags : Z) (data : list byte) : ST RecDict unit :=
  do num <- dict_get "count" (VInt 0);
  do num1 <- lift (py_succ num);
  dict_set "count" num1 ;;;
  do data <-
    (if Z.land flags 0x00040000 =? 0 then ret data
     else
       do uncompSize <- lift (unpack_unsigned 4 (slice data 0 4));
       do data <- lift (decompress (drop 4 data));
       do num <- dict_get "compressed" (VInt 0);
       do num1 <- lift (py_succ num);
       dict_set "compressed" num1 ;;;
       ret data);
  setdefault_append "sizes" (Z.of_nat (length data)) ;;;
  dumpSubRecords data.

(** The iterations allowed to the loop over a region of [size] bytes:
    every iteration moves the cursor forward, so this budget is never
    used up ([while_progress]). *)
Definition loop_fuel (size : Z) : nat := S (Z.to_nat size).

(** [dumpGRUPOrRecord(ins, stats, end)]. The recursion of the source is
    bounded by the recursion limit of the interpreter: [depth] is the
    number of nested calls of [dumpGRUPOrRecord], this one included,
    that can still call a Python function (a reader of [FileReader],
    [dumpSubRecords], [dumpGRUPOrRecord] itself). With [depth = 0] the
    call itself still runs, and so do the methods of the file object
    and of [bytes], which are no Python functions; its first call of a
    reader raises [RecursionError]. *)
Fixpoint dumpGRUPOrRecord (depth : nat) (end_ : Z) : ST World unit :=
  do pos <- on_file tell;
  if pos + 24 >? end_ then on_file (seek end_)
  else
    do grup <- on_file (read 4);
    if decide (grup = GRUP) then
      match depth with
      | O => raise RecursionError
      | S depth' =>
          do n <- on_file readUInt32;
          let size := n - 24 in
          do label <- on_file (read 4);
          do Type_ <- on_file readInt32;
          do stamp <- on_file readUInt16;
          do unk1 <- on_file readUInt16;
          do version <- on_file readUInt16;
          do unk2 <- on_file readUInt16;
          do pos <- on_file tell;
          if pos + size >? end_ then on_file (seek end_)
          else
            while_tell_lt (loop_fuel size) (pos + size)
              (dumpGRUPOrRecord depth' (pos + size))
      end
    else
      do Type_ <- lift (decode_ascii grup);
      match depth with
      | O => raise RecursionError
      | S _ =>
          do dataSize <- on_file readUInt32;
          do flags <- on_file readUInt32;
          do id <- on_file readUInt32;
          do revision <- on_file readUInt32;
          do version <- on_file readUInt16;
          do unk <- on_file readUInt16;
          (if Z.land flags 0x20 =? 0
           then dumpRecordData Type_ dataSize flags
           else ret tt) ;;;
          on_file (seek (pos + dataSize + 24))
      end.

(** The iterations allowed to the loop of [dumpPlugin]: one more than
    the length of the file, which is enough ([dumpPlugin_result]). *)
Definition walk_fuel (c : list byte) : nat := S (length c).

(** The walk of [dumpPlugin]: from offset 0 with empty statistics,
    [while ins.tell() < size: dumpGRUPOrRecord(ins, s, size)], the calls
    being made with the room [depth] for nested calls. The surrounding
    [try] reports an exception and keeps the statistics; the result says
    whether one was raised. *)
Definition dumpPlugin (depth : nat) (c : list byte) : res unit * World :=
  let size := Z.of_nat (length c) in
  while_tell_lt (walk_fuel c) size (dumpGRUPOrRecord depth size)
    (mkWorld (mkFile c 0) ∅).

End Walker.

(** ** Building inputs *)

Definition byte_of_Z (n : Z) : byte :=
  default x00 (Byte.of_N (Z.to_N (n mod 256))).

(** [struct.pack] of an unsigned little-endian integer of [width] bytes. *)
Fixpoint le_bytes (width : nat) (n : Z) : list byte :=
  match width with
  | O => []
  | S w => byte_of_Z n :: le_bytes w (n / 256)
  end.

Definition ascii_bytes (s : string) : list byte := list_byte_of_string s.

(** The 24 bytes of a record header. *)
Definition record_header (tag : list byte) (dataSize flags : Z) : list byte :=
  tag ++ le_bytes 4 dataSize ++ le_bytes 4 flags
      ++ le_bytes 4 0 ++ le_bytes 4 0 ++ le_bytes 2 0 ++ le_bytes 2 0.

(** The 24 bytes of a group header; [declared] counts the header. *)
Definition group_header (declared : Z) (label : list byte) : list byte :=
  GRUP ++ le_bytes 4 declared ++ label ++ le_bytes 4 0
       ++ le_bytes 2 0 ++ le_bytes 2 0 ++ le_bytes 2 0 ++ le_bytes 2 0.

(** A subrecord in normal form. *)
Definition subrecord (tag : list byte) (payload : list byte) : list byte :=
  tag ++ le_bytes 2 (Z.of_nat (length payload)) ++ payload.

(** ** A decoder for zlib streams made of stored blocks

    The walker is parametric in [zlib.decompress]. Concrete scenarios
    run it with this decoder of the zlib container (RFC 1950) around
    deflate blocks of type 00 (RFC 1951, stored); any other stream is
    rejected. It is used only on streams both it and zlib accept, and on
    streams both reject. *)

Definition adler32 (d : list byte) : Z :=
  let '(a, b) :=
    fold_left (λ '(a, b) x,
                 let a' := (a + byte_val x) mod 65521 in
                 (a', (b + a') mod 65521)) d (1, 0) in
  b * 65536 + a.

Fixpoint inflate_blocks (fuel : nat) (b : list byte) (out : list byte)
  : option (list byte) :=
  match fuel with
  | O => None
  | S fuel' =>
      match b with
      | hdr :: l0 :: l1 :: n0 :: n1 :: rest =>
          let len := le_value [l0; l1] in
          if (Z.land (byte_val hdr) 6 =? 0)
             && (Z.lxor len 65535 =? le_value [n0; n1])
             && (len <=? Z.of_nat (length rest))
          then
            let out' := out ++ take (Z.to_nat len) rest in
            let rest' := drop (Z.to_nat len) rest in
            if Z.land (byte_val hdr) 1 =? 1 then
              match rest' with
              | a3 :: a2 :: a1 :: a0 :: _ =>
                  if le_value [a0; a1; a2; a3] =? adler32 out'
                  then Some out' else None
              | _ => None
              end
            else inflate_blocks fuel' rest' out'
          else None
      | _ => None
      end
  end.

Definition inflate_stored (b : list byte) : option (list byte) :=
  match b with
  | cmf :: flg :: rest =>
      if (Z.land (byte_val cmf) 15 =? 8)
         && (byte_val cmf / 16 <=? 7)
         && ((byte_val cmf * 256 + byte_val flg) mod 31 =? 0)
         && (Z.land (byte_val flg) 32 =? 0)
      then inflate_blocks (length rest) rest []
      else None
  | _ => None
  end.


(** A compressed record body: the size prefix, then the stream. *)
Definition compressed_data (U : Z) (z : list byte) : list byte :=
  le_bytes 4 U ++ z.

(** ** Views of the input and of the statistics used in the statements *)

Definition file_size (f : FileReader) : Z := Z.of_nat (length (content f)).

(** Bytes left between the cursor and the end of the file. *)
Definition remaining (f : FileReader) : Z := file_size f - position f.

(** The [n] bytes found [off] bytes after the cursor. *)
Definition bytes_at (f : FileReader) (off n : Z) : list byte :=
  slice (content f) (position f + off) (position f + off + n).

Definition tag_at (f : FileReader) : list byte := bytes_at f 0 4.
Definition u32_at (f : FileReader) (off : Z) : Z := le_value (bytes_at f off 4).

(** The bytes that [ins.read(dataSize)] returns for the record whose
    header starts at the cursor: those after the header, as many as the
    header declares, cut by the end of the file and by [READ_MAX]. *)
Definition record_data (f : FileReader) : list byte :=
  bytes_at f 24 (Z.min (u32_at f 4) READ_MAX).

(** A whole 24-byte header lies between the cursor and the end of file. *)
Definition header_available (f : FileReader) : Prop :=
  0 ≤ position f ∧ position f + 24 ≤ file_size f.

Definition is_ascii (b : list byte) : Prop :=
  Forall (λ x, byte_val x < 128) b.

(** The dictionary of subrecord type [k] inside the dictionary [s] of a
    record type (empty when there is none). *)
Definition sub_dict (s : gmap string PyVal) (k : string)
  : gmap string (list Z) :=
  match s !! k with
  | Some (VDict d) => d
  | _ => ∅
  end.

Definition list_field (d : gmap string (list Z)) (k : string) : list Z :=
  default [] (d !! k).

(** [x] appended to the list [field] of the subrecord type [kv.1]. *)
Definition append_in (field : string) (s : gmap string PyVal)
    (kv : string * Z) : gmap string PyVal :=
  <[kv.1 := VDict (<[field := list_field (sub_dict s kv.1) field ++ [kv.2]]>
                     (sub_dict s kv.1))]> s.

(** The subrecords one run of the loop of [dumpSubRecords] reports, as
    [(subType, subSize)] in order, and the way the loop ends: the same
    loop with the dictionary updates left out. *)
Fixpoint sub_trace (fuel : nat) (data : list byte) (pos : Z)
  : list (string * Z) * res unit :=
  let size := Z.of_nat (length data) in
  if pos <? size - 6 then
    match fuel with
    | O => ([], Fuel)
    | S fuel' =>
        match sub_header data pos with
        | Ok (subSize, subType, pos') =>
            if pos' + subSize >? size then ([], Ok tt)
            else
              let (l, r) := sub_trace fuel' data (pos' + subSize) in
              ((subType, subSize) :: l, r)
        | Raise e => ([], Raise e)
        | Fuel => ([], Fuel)
        end
    end
  else ([], Ok tt).

Definition subrecords (data : list byte) : list (string * Z) * res unit :=
  sub_trace (length data) data 0.

(** [counts] after the subrecords [tr]. *)
Definition count_all (tr : list (string * Z)) (counts : list (string * Z))
  : list (string * Z) :=
  fold_left (λ c kv, counts_set c kv.1 (counts_get c kv.1 + 1)) tr counts.

(** Typing of the dictionary of a record type: a dictionary only under
    a key of at most four characters, an int only under ['count'] or
    ['compressed'], a list only under ['sizes']. *)
Definition WF_rec (s : gmap string PyVal) : Prop :=
  ∀ k v, s !! k = Some v →
    match v with
    | VDict _ => (String.length k ≤ 4)%nat
    | VInt _ => k = "count"%string ∨ k = "compressed"%string
    | VList _ => k = "sizes"%string
    end.

Definition WF_stats (st : gmap string (gmap string PyVal)) : Prop :=
  ∀ T s, st !! T = Some s → WF_rec s.

(** The counting invariant of the dictionary of one record type. *)
Definition Inv_rec (s : gmap string PyVal) : Prop :=
  ∃ sz : list Z,
    s !! "count"%string = Some (VInt (Z.of_nat (length sz)))
    ∧ s !! "sizes"%string = Some (VList sz)
    ∧ (s !! "compressed"%string = None
       ∨ ∃ c, s !! "compressed"%string = Some (VInt c)
              ∧ 0 ≤ c ≤ Z.of_nat (length sz))
    ∧ ∀ k d, s !! k = Some (VDict d) →
        (length (list_field d "counts") ≤ length sz)%nat.

Definition Inv_stats (st : gmap string (gmap string PyVal)) : Prop :=
  ∀ T s, st !! T = Some s → WF_rec s ∧ Inv_rec s.

(** The same invariant while a record is being handled: its count and
    size are stored, the occurrence samples of its subrecords not yet,
    so each sample list is [slack] short of the count. *)
Definition Inv_at (slack : nat) (s : gmap string PyVal) : Prop :=
  ∃ sz : list Z,
    (slack ≤ length sz)%nat
    ∧ s !! "count"%string = Some (VInt (Z.of_nat (length sz)))
    ∧ s !! "sizes"%string = Some (VList sz)
    ∧ (s !! "compressed"%string = None
       ∨ ∃ c, s !! "compressed"%string = Some (VInt c)
              ∧ 0 ≤ c ≤ Z.of_nat (length sz))
    ∧ ∀ k d, s !! k = Some (VDict d) →
        (slack + length (list_field d "counts") ≤ length sz)%nat.

(** No key is lost from [s] to [s']. *)
Definition keys_le (s s' : gmap string PyVal) : Prop :=
  ∀ k, is_Some (s !! k) → is_Some (s' !! k).

(** No record type is lost, and none of its keys. *)
Definition keys_kept (st st' : gmap string (gmap string PyVal)) : Prop :=
  ∀ T s, st !! T = Some s → ∃ s', st' !! T = Some s' ∧ keys_le s s'.

(** The exceptions the payload of a record can raise. *)
Definition allowed_exn {A} (r : res A) : Prop :=
  match r with
  | Raise e => e = StructError ∨ e = UnicodeDecodeError ∨ e = ZlibError
  | _ => True
  end.

(** How a walk can end: it returns, or raises one of these, or
    [RecursionError] when groups are nested deeper than the recursion
    limit allows. *)
Definition walk_result (r : res unit) : Prop :=
  r ≠ Fuel ∧ (allowed_exn r ∨ r = Raise RecursionError).

(** What one step of the walk guarantees, from well-typed statistics. *)
Definition walk_post (w : World) (r : res unit) (w' : World) : Prop :=
  WF_stats (stats w) →
  WF_stats (stats w')
  ∧ content (ins w') = content (ins w)
  ∧ keys_kept (stats w) (stats w')
  ∧ (allowed_exn r ∨ r = Raise OSError ∨ r = Raise RecursionError)
  ∧ (r = Ok tt → Inv_stats (stats w) → Inv_stats (stats w')).

(** The int under key [k] of the dictionary of a record type, 0 when
    there is none, and its list of sizes. *)
Definition int_field (s : gmap string PyVal) (k : string) : Z :=
  match s !! k with
  | Some (VInt n) => n
  | _ => 0
  end.

Definition sizes_of (s : gmap string PyVal) : list Z :=
  match s !! "sizes"%string with
  | Some (VList l) => l
  | _ => []
  end.

(** The dictionary of a record type after one more record of payload
    size [n] has been counted, compressed or not. *)
Definition recorded (compressed : bool) (n : Z) (s : gmap string PyVal)
  : gmap string PyVal :=
  let s1 := <["count"%string := VInt (int_field s "count" + 1)]> s in
  let s2 := if compressed
            then <["compressed"%string :=
                     VInt (int_field s "compressed" + 1)]> s1
            else s1 in
  <["sizes"%string := VList (sizes_of s ++ [n])]> s2.

(** The world [w] with the cursor moved to [q]. *)
Definition at_ (q : Z) (w : World) : World :=
  mkWorld (set_position q (ins w)) (stats w).

(** A file operation returns or raises [struct.error], and leaves the
    content of the file alone. *)
Definition file_op {A} (m : ST FileReader A) : Prop :=
  ∀ f, ((∃ a, (m f).1 = Ok a) ∨ (m f).1 = Raise StructError)
       ∧ content (m f).2 = content f.

(** How a call that only reads a header and moves the cursor can end. *)
Definition header_result (r : res unit) : Prop :=
  r = Ok tt ∨ r = Raise StructError ∨ r = Raise UnicodeDecodeError
  ∨ r = Raise OSError ∨ r = Raise RecursionError.

(** Every key of at most four characters holds a dictionary. *)
Definition dict_keys_ok (s : gmap string PyVal) : Prop :=
  ∀ k v, s !! k = Some v → (String.length k ≤ 4)%nat → ∃ d, v = VDict d.

(** The result [r] of a run, carrying the value [a] when it is normal. *)
Definition res_of {A} (r : res unit) (a : A) : res A :=
  match r with
  | Ok _ => Ok a
  | Raise e => Raise e
  | Fuel => Fuel
  end.

(** The states in which a call is made during a walk of a region
    ending at [end_]. *)
Definition walking (end_ : Z) (w : World) : Prop :=
  WF_stats (stats w) ∧ 0 ≤ position (ins w) ∧ end_ ≤ file_size (ins w).

(** ** Sample inputs *)

Definition CELL : list byte := ascii_bytes "CELL".
Definition edid4 : list byte := subrecord (ascii_bytes "EDID") (ascii_bytes "abcd").
Definition edid6 : list byte := subrecord (ascii_bytes "EDID") (ascii_bytes "abcdef").

(** One group [WRLD] around two [CELL] records, each with one [EDID]. *)
Definition sample_plugin : list byte :=
  group_header (24 + 34 + 36) (ascii_bytes "WRLD")
    ++ record_header CELL 10 0 ++ edid4
    ++ record_header CELL 12 0 ++ edid6.

(** A record that is both deleted and flagged compressed. *)
Definition sample_deleted : list byte :=
  record_header CELL 10 0x00040020 ++ edid4.

(** A group that declares 1000 bytes in a file of 48. *)
Definition sample_overrun : list byte :=
  group_header 1000 (ascii_bytes "WRLD") ++ record_header CELL 0 0.

(** A group [WRLD] of 58 bytes whose only child is a group that
    declares 1000 bytes; after it, a sibling of the outer group: a
    [CELL] record with one [EDID]. *)
Definition sample_nested_overrun : list byte :=
  group_header (24 + 24 + 10) (ascii_bytes "WRLD")
    ++ group_header 1000 (ascii_bytes "CELL") ++ edid4
    ++ record_header CELL 10 0 ++ edid4.

(** A group [WRLD] that holds one empty group. *)
Definition sample_nested : list byte :=
  group_header 48 (ascii_bytes "WRLD") ++ group_header 24 (ascii_bytes "CELL").


(** A compressed record whose stream is not a zlib stream, followed by
    a well-formed record. *)
Definition sample_corrupt : list byte :=
  record_header CELL 6 0x00040000 ++ compressed_data 10 [x00; x00]
    ++ record_header (ascii_bytes "NPC_") 0 0.

(** A compressed record that declares 100 bytes of data in a file that
    ends after 6 of them, which are no zlib stream. *)
Definition sample_cut : list byte :=
  record_header CELL 100 0x00040000 ++ compressed_data 10 [x00; x00].


Definition start (c : list byte) : World := mkWorld (mkFile c 0) ∅.

(** Two cursors on files that agree on their first [e] bytes. *)
Definition same_upto (e : Z) (f f' : FileReader) : Prop :=
  position f = position f'
  ∧ take (Z.to_nat e) (content f) = take (Z.to_nat e) (content f').



(** ** Subrecords written out and read back *)

(** The bytes of a sequence of subrecords in normal form, each given by
    its tag and its data. *)
Fixpoint encode_subrecords (l : list (list byte * list byte)) : list byte :=
  match l with
  | [] => []
  | tp :: l' => subrecord tp.1 tp.2 ++ encode_subrecords l'
  end.

(** A tag of a subrecord in normal form: four ASCII bytes, not the
    escape tag. *)
Definition plain_tag (t : list byte) : Prop :=
  length t = 4%nat ∧ is_ascii t ∧ string_of_list_byte t ≠ XXXX.

(** What the parser is to report for a subrecord: its tag as a string
    and the length of its data. *)
Definition reported (tp : list byte * list byte) : string * Z :=
  (string_of_list_byte tp.1, Z.of_nat (length tp.2)).

(** The sizes reported under tag [k], in order, and their number. *)
Definition sizes_under (k : string) (tr : list (string * Z)) : list Z :=
  (filter (λ kv, kv.1 = k) tr).*2.

Definition occurrences (k : string) (tr : list (string * Z)) : Z :=
  Z.of_nat (length (filter (λ kv : string * Z, kv.1 = k) tr)).

(** ** The checksum pass of [dumpPlugin] *)

Section Checksum.

(** [binascii.crc32(data, value)]: the running checksum [value]
    carried over the bytes [data]. *)
Variable crc32 : list byte → Z → Z.

(** [while ins.tell() < size: crc = binascii.crc32(ins.read(2097152), crc)] *)
Fixpoint crc_loop (fuel : nat) (size : Z) (crc : Z) : ST FileReader Z :=
  match fuel with
  | O => out_of_fuel
  | S fuel' =>
      do pos <- tell;
      if pos <? size then
        do chunk <- read 2097152;
        crc_loop fuel' size (crc32 chunk crc)
      else ret crc
  end.

(** The checksum of a plugin, as stored under ['crc']: the loop from
    offset 0 up to [size], the length of the file, then the mask, and
    the cursor put back on 0 for the walk. *)
Definition checksum_pass (c : list byte) : res Z * FileReader :=
  (do crc <- crc_loop (S (length c)) (Z.of_nat (length c)) 0;
   let crc := Z.land crc 0xFFFFFFFF in
   seek 0 ;;;
   ret crc) (mkFile c 0).

End Checksum.

(** The CRC-32 of zlib and [binascii] (polynomial 0xEDB88320, bits
    reflected, initial value and final complement 0xFFFFFFFF), bit by
    bit; it stands for [binascii.crc32] in concrete runs. *)
Definition crc32_bit (c : Z) : Z :=
  if Z.testbit c 0 then Z.lxor (Z.shiftr c 1) 0xEDB88320 else Z.shiftr c 1.

Definition crc32_byte (c : Z) (b : byte) : Z :=
  Nat.iter 8 crc32_bit (Z.lxor c (byte_val b)).

Definition crc32_ref (data : list byte) (value : Z) : Z :=
  Z.lxor (fold_left crc32_byte data (Z.lxor value 0xFFFFFFFF)) 0xFFFFFFFF.

(** ** The report: [printRecordStats]

    The report of one record type, as one passage of the loop
    [for Type in sorted(stats)] writes it: first the totals of the type
    ([report_totals], up to the line [Subrecords:]), then one passage of
    the loop [for subtype in recStats] per key of the dictionary
    ([report_entry]). The state is the list of lines written to
    [outFile] so far, a line being what one call of [print] writes. *)

Inductive report_exn : Type :=
| RKeyError (key : string)
| RValueError.

(** How a part of the report ends: it runs to its end, it raises, or it
    meets a value of a Python type that the walker never stores under
    that key ([Untyped]), for which the report is not modelled. *)
Inductive outcome (A : Type) : Type :=
| Done (a : A)
| Failed (e : report_exn)
| Untyped.

Arguments Done {A} a.
Arguments Failed {A} e.
Arguments Untyped {A}.

Definition Report (A : Type) : Type := list string → outcome A * list string.

#[global] Instance Report_ret : MRet Report := λ A a out, (Done a, out).

#[global] Instance Report_bind : MBind Report := λ A B k m out,
  match m out with
  | (Done a, out') => k a out'
  | (Failed e, out') => (Failed e, out')
  | (Untyped, out') => (Untyped, out')
  end.

(** [print(..., file=outFile)], given the line it writes. *)
Definition print (line : string) : Report unit :=
  λ out, (Done tt, out ++ [line]).

Definition report_raise {A} (e : report_exn) : Report A :=
  λ out, (Failed e, out).

Definition untyped {A} : Report A := λ out, (Untyped, out).

(** [d[k]] *)
Definition getitem {V} (d : gmap string V) (k : string) : Report V :=
  match d !! k with
  | Some v => mret v
  | None => report_raise (RKeyError k)
  end.

Definition as_int (v : PyVal) : Report Z :=
  match v with
  | VInt n => mret n
  | _ => untyped
  end.

Definition as_list (v : PyVal) : Report (list Z) :=
  match v with
  | VList l => mret l
  | _ => untyped
  end.

Definition as_dict (v : PyVal) : Report (gmap string (list Z)) :=
  match v with
  | VDict d => mret d
  | _ => untyped
  end.

(** [min(l)] and [max(l)]: [ValueError] on an empty list. *)
Definition py_min (l : list Z) : Report Z :=
  match l with
  | [] => report_raise RValueError
  | x :: l' => mret (fold_left Z.min l' x)
  end.

Definition py_max (l : list Z) : Report Z :=
  match l with
  | [] => report_raise RValueError
  | x :: l' => mret (fold_left Z.max l' x)
  end.

(** From [print('', Type, file=outFile)] to
    [print('  Subrecords:', file=outFile)]; it yields [count] for the
    loop over the subrecord types. *)
Definition report_totals (Type_ : string) (recStats : gmap string PyVal)
  : Report Z :=
  print (" " +:+ Type_) ;;
  count ← getitem recStats "count" ≫= as_int;
  print ("  Count: " +:+ pretty count) ;;
  sizes ← getitem recStats "sizes" ≫= as_list;
  minsize ← py_min sizes;
  maxsize ← py_max sizes;
  compressed ← as_int (default (VInt 0) (recStats !! "compressed"%string));
  (if compressed =? count then print "  All compressed"
   else if compressed >? 0 then
     print ("  Compressed: " +:+ pretty compressed +:+ " / " +:+ pretty count)
   else print "  None compressed") ;;
  (if minsize =? maxsize then print ("  Size: " +:+ pretty maxsize)
   else print ("  Min Size: " +:+ pretty minsize) ;;
        print ("  Max Size: " +:+ pretty maxsize)) ;;
  print "  Subrecords:" ;;
  mret count.

(** The body of [for subtype in recStats] from
    [subStats = recStats[subtype]] on. *)
Definition report_subrecord (count : Z) (subtype : string)
    (subStats : gmap string (list Z)) : Report unit :=
  subCounts ← getitem subStats "counts";
  (if Z.of_nat (length subCounts) =? count then
     print ("   " +:+ subtype +:+ " - Required")
   else
     print ("   " +:+ subtype +:+ " - "
              +:+ pretty (Z.of_nat (length subCounts)) +:+ " / "
              +:+ pretty count +:+ " records")) ;;
  maxcount ← py_max subCounts;
  mincount ← py_min subCounts;
  (if maxcount =? mincount then print ("    Count: " +:+ pretty maxcount)
   else print ("    Min Count: " +:+ pretty mincount) ;;
        print ("    Max Count: " +:+ pretty maxcount)) ;;
  sizes ← getitem subStats "sizes";
  maxsize ← py_max sizes;
  minsize ← py_min sizes;
  (if maxsize =? minsize then print ("    Size: " +:+ pretty maxsize)
   else print ("    Min Size: " +:+ pretty minsize) ;;
        print ("    Max Size: " +:+ pretty maxsize)).

(** One passage of [for subtype in recStats], [v] being
    [recStats[subtype]]. *)
Definition report_entry (count : Z) (subtype : string) (v : PyVal)
  : Report unit :=
  if decide (subtype ∈ ["count"; "sizes"; "compressed"]%string) then mret tt
  else subStats ← as_dict v; report_subrecord count subtype subStats.

(** A part of the report that runs to its end with the value [a],
    whatever was written before, and only adds lines. *)
Definition runs {A} (m : Report A) (a : A) : Prop :=
  ∀ out, ∃ lines, m out = (Done a, out ++ lines).

(** The dictionary of a record type has what the report reads: a list
    of sizes that is not empty, and for each subrecord type lists
    ['counts'] and ['sizes'] that are not empty. *)
Definition complete_rec (s : gmap string PyVal) : Prop :=
  sizes_of s ≠ []
  ∧ ∀ k d, s !! k = Some (VDict d) →
      list_field d "counts" ≠ [] ∧ list_field d "sizes" ≠ [].

Definition complete (st : gmap string (gmap string PyVal)) : Prop :=
  ∀ T s, st !! T = Some s → complete_rec s.

(** The step guarantee of the walk, with completeness along normal
    returns. *)
Definition report_post (w : World) (r : res unit) (w' : World) : Prop :=
  walk_post w r w'
  ∧ (WF_stats (stats w) → r = Ok tt →
     complete (stats w) → complete (stats w')).

(** ** The plugins to dump: [main] for a plugin named on the command line *)

(** [s.endswith(suffix)] *)
Definition endswith (s suffix : string) : bool :=
  (String.length suffix <=? String.length s)%nat
  && String.eqb
       (String.substring (String.length s - String.length suffix)%nat
          (String.length suffix) s)
       suffix.

(** [s[-n:]] for [n > 0]: the last [n] characters of [s], all of [s]
    when it is shorter. *)
Definition last_chars (n : nat) (s : string) : string :=
  String.substring (String.length s - n)%nat n s.

Section ToDump.

(** [os.path.exists] and [str.lower]. *)
Variable path_exists : string → bool.
Variable lower : string → string.

(** The name the candidates are made from:
    [plugin = opts.plugin.lower()], then
    [if plugin.endswith('.ghost'): plugin = plugin[-6:]]. *)
Definition plugin_name (arg : string) : string :=
  let plugin := lower arg in
  if endswith plugin ".ghost" then last_chars 6 plugin else plugin.

(** [to_dump = [x for x in (plugin, plugin+'.ghost') if os.path.exists(x)]] *)
Definition to_dump_plugin (arg : string) : list string :=
  let plugin := plugin_name arg in
  filter (λ x, path_exists x = true) [plugin; plugin +:+ ".ghost"].

(** The loop that collects [dupes]: the plugins of [to_dump] whose
    ghosted name is in [to_dump] too. *)
Definition dupes (to_dump : list string) : list string :=
  filter (λ plugin, plugin +:+ ".ghost" ∈ to_dump) to_dump.

End ToDump.

(** * Properties *)

(** ** The monad *)

Lemma bind_ok {S A B} (m : ST S A) (k : A → ST S B) s a s' :
  m s = (Ok a, s') → bind m k s = k a s'.
Proof. unfold bind. now intros ->. Qed.

Lemma bind_raise {S A B} (m : ST S A) (k : A → ST S B) s e s' :
  m s = (Raise e, s') → bind m k s = (Raise e, s').
Proof. unfold bind. now intros ->. Qed.

Lemma bind_fuel {S A B} (m : ST S A) (k : A → ST S B) s s' :
  m s = (Fuel, s') → bind m k s = (Fuel, s').
Proof. unfold bind. now intros ->. Qed.

Lemma bind_lift {S A B} (r : res A) (k : A → ST S B) s :
  bind (lift r) k s
  = match r with
    | Ok a => k a s
    | Raise e => (Raise e, s)
    | Fuel => (Fuel, s)
    end.
Proof. unfold bind, lift. now destruct r. Qed.

(** ** Bytes *)

Lemma byte_val_range b : 0 ≤ byte_val b < 256.
Proof.
  unfold byte_val. pose proof (Byte.to_N_bounded b) as H.
  split; [apply N2Z.is_nonneg|]. lia.
Qed.

Lemma le_value_range bs : 0 ≤ le_value bs < 256 ^ Z.of_nat (length bs).
Proof.
  induction bs as [|b bs IH]; simpl length; simpl le_value.
  - simpl. lia.
  - rewrite Nat2Z.inj_succ, Z.pow_succ_r by lia.
    pose proof (byte_val_range b). lia.
Qed.

Lemma slice_length data a b :
  0 ≤ a → a ≤ b → b ≤ Z.of_nat (length data) →
  Z.of_nat (length (slice data a b)) = b - a.
Proof.
  intros Ha Hab Hb. unfold slice. rewrite length_take, length_drop. lia.
Qed.

Lemma slice_length_le data a b :
  a ≤ b → Z.of_nat (length (slice data a b)) ≤ b - a.
Proof. intros Hab. unfold slice. rewrite length_take. lia. Qed.

Lemma decode_ascii_length b s :
  decode_ascii b = Ok s → String.length s = length b.
Proof.
  unfold decode_ascii. destruct (forallb _ b); [|discriminate].
  intros [= <-]. clear. unfold string_of_list_byte.
  induction b as [|x b IH]; simpl; congruence.
Qed.

Lemma decode_ascii_ok b :
  is_ascii b → decode_ascii b = Ok (string_of_list_byte b).
Proof.
  intros H. unfold decode_ascii.
  replace (forallb _ b) with true; [done|]. symmetry.
  apply forallb_forall. intros x Hx.
  unfold is_ascii in H. rewrite List.Forall_forall in H.
  now apply Z.ltb_lt, H.
Qed.

Lemma decode_ascii_raise b :
  ¬ is_ascii b → decode_ascii b = Raise UnicodeDecodeError.
Proof.
  intros H. unfold decode_ascii.
  destruct (forallb _ b) eqn:E; [|done]. exfalso. apply H.
  rewrite forallb_forall in E. apply List.Forall_forall. intros x Hx.
  now apply Z.ltb_lt, E.
Qed.

(** ** The file object *)

(** A read of at most [READ_MAX] bytes is cut by the end of the file
    only. *)
Lemma file_read_small f n :
  0 ≤ n → n ≤ READ_MAX →
  file_read n f
  = (take (Z.to_nat n) (drop (Z.to_nat (position f)) (content f)),
     set_position
       (position f
        + Z.of_nat (length (take (Z.to_nat n)
                              (drop (Z.to_nat (position f)) (content f)))))
       f).
Proof.
  intros Hn Hmax. unfold file_read.
  destruct (Z.ltb_spec n 0); [lia|]. now rewrite Z.min_l by lia.
Qed.


Lemma file_read_bytes f n :
  0 ≤ n →
  file_read n f
  = (bytes_at f 0 (Z.min n READ_MAX),
     set_position
       (position f + Z.of_nat (length (bytes_at f 0 (Z.min n READ_MAX)))) f).
Proof.
  intros Hn. unfold file_read, bytes_at, slice.
  destruct (Z.ltb_spec n 0); [lia|].
  replace (position f + 0 + Z.min n READ_MAX - (position f + 0))
    with (Z.min n READ_MAX) by lia.
  replace (position f + 0) with (position f) by lia. reflexivity.
Qed.

Lemma read_at c p n :
  0 ≤ p → 0 ≤ n → p + n ≤ Z.of_nat (length c) → n ≤ READ_MAX →
  read n (mkFile c p) = (Ok (slice c p (p + n)), mkFile c (p + n)).
Proof.
  intros Hp Hn Hle Hmax. unfold read. rewrite file_read_small by done.
  unfold set_position, slice. cbn [content position].
  replace (p + n - p) with n by lia.
  rewrite length_take, length_drop.
  do 2 f_equal. lia.
Qed.

Lemma read_slice_length c p n :
  0 ≤ p → 0 ≤ n → p + n ≤ Z.of_nat (length c) →
  length (slice c p (p + n)) = Z.to_nat n.
Proof.
  intros Hp Hn Hle. pose proof (slice_length c p (p + n)). lia.
Qed.

Lemma readUInt32_at c p :
  0 ≤ p → p + 4 ≤ Z.of_nat (length c) →
  readUInt32 (mkFile c p)
  = (Ok (le_value (slice c p (p + 4))), mkFile c (p + 4)).
Proof.
  intros Hp Hle. unfold readUInt32, readFixed. change (Z.of_nat 4) with 4.
  rewrite (bind_ok _ _ _ _ _ (read_at c p 4 Hp ltac:(lia) Hle ltac:(lia))).
  unfold lift, unpack_unsigned.
  rewrite decide_True; [done|]. now apply read_slice_length.
Qed.

Lemma readUInt16_at c p :
  0 ≤ p → p + 2 ≤ Z.of_nat (length c) →
  readUInt16 (mkFile c p)
  = (Ok (le_value (slice c p (p + 2))), mkFile c (p + 2)).
Proof.
  intros Hp Hle. unfold readUInt16, readFixed. change (Z.of_nat 2) with 2.
  rewrite (bind_ok _ _ _ _ _ (read_at c p 2 Hp ltac:(lia) Hle ltac:(lia))).
  unfold lift, unpack_unsigned.
  rewrite decide_True; [done|]. now apply read_slice_length.
Qed.

Lemma readInt32_at c p :
  0 ≤ p → p + 4 ≤ Z.of_nat (length c) →
  ∃ v, readInt32 (mkFile c p) = (Ok v, mkFile c (p + 4)).
Proof.
  intros Hp Hle. unfold readInt32, readFixed. change (Z.of_nat 4) with 4.
  rewrite (bind_ok _ _ _ _ _ (read_at c p 4 Hp ltac:(lia) Hle ltac:(lia))).
  unfold lift, unpack_signed.
  rewrite decide_True; [eauto|]. now apply read_slice_length.
Qed.


Lemma on_file_bind_ok {A B} (m : ST FileReader A) (k : A → ST World B)
    c p st a p' :
  m (mkFile c p) = (Ok a, mkFile c p') →
  bind (on_file m) k (mkWorld (mkFile c p) st)
  = k a (mkWorld (mkFile c p') st).
Proof. intros H. unfold bind, on_file. simpl. now rewrite H. Qed.

Lemma on_file_tell {B} (k : Z → ST World B) w :
  bind (on_file tell) k w = k (position (ins w)) w.
Proof. destruct w as [f st]. reflexivity. Qed.

Lemma on_file_seek p w :
  0 ≤ p →
  on_file (seek p) w = (Ok tt, mkWorld (set_position p (ins w)) (stats w)).
Proof.
  intros Hp. unfold on_file, seek.
  destruct (Z.ltb_spec p 0); [lia|]. reflexivity.
Qed.

Lemma on_file_seek_cases p w :
  on_file (seek p) w = (Ok tt, mkWorld (set_position p (ins w)) (stats w))
  ∨ on_file (seek p) w = (Raise OSError, w).
Proof.
  unfold on_file, seek. destruct (p <? 0); [right|left; reflexivity].
  now destruct w.
Qed.

(** ** Unfolding [dumpGRUPOrRecord] on a whole header *)

Section WalkerFacts.

Variable zd : list byte → option (list byte).

(** Too few bytes before [end_]: the cursor is put on [end_]. *)
Lemma dump_padding depth end_ w :
  0 ≤ end_ → position (ins w) + 24 > end_ →
  dumpGRUPOrRecord zd depth end_ w
  = (Ok tt, mkWorld (set_position end_ (ins w)) (stats w)).
Proof.
  intros He H. destruct depth; cbn [dumpGRUPOrRecord]; rewrite on_file_tell;
    (destruct (Z.gtb_spec (position (ins w) + 24) end_); [|lia]);
    now apply on_file_seek.
Qed.

(** A record header: the fields are read and the cursor is 24 further. *)
Lemma dump_record_header depth end_ c p st Type_ :
  0 ≤ p → p + 24 ≤ Z.of_nat (length c) → p + 24 ≤ end_ →
  slice c p (p + 4) ≠ GRUP →
  decode_ascii (slice c p (p + 4)) = Ok Type_ →
  let dataSize := le_value (slice c (p + 4) (p + 4 + 4)) in
  let flags := le_value (slice c (p + 4 + 4) (p + 4 + 4 + 4)) in
  dumpGRUPOrRecord zd (S depth) end_ (mkWorld (mkFile c p) st)
  = ((if Z.land flags 0x20 =? 0
      then dumpRecordData zd Type_ dataSize flags else ret tt) ;;;
     on_file (seek (p + dataSize + 24)))
      (mkWorld (mkFile c (p + 24)) st).
Proof.
  intros Hp Hlen Hend Htag Hdec. cbn zeta.
  cbn [dumpGRUPOrRecord]. rewrite on_file_tell. cbn [ins position].
  destruct (Z.gtb_spec (p + 24) end_); [lia|].
  erewrite on_file_bind_ok by (apply read_at; lia).
  rewrite decide_False by done.
  unfold lift at 1. unfold bind at 1. rewrite Hdec.
  erewrite on_file_bind_ok by (apply readUInt32_at; lia).
  erewrite on_file_bind_ok by (apply readUInt32_at; lia).
  erewrite on_file_bind_ok by (apply readUInt32_at; lia).
  erewrite on_file_bind_ok by (apply readUInt32_at; lia).
  erewrite on_file_bind_ok by (apply readUInt16_at; lia).
  erewrite on_file_bind_ok by (apply readUInt16_at; lia).
  replace (p + 4 + 4 + 4 + 4 + 4 + 2 + 2) with (p + 24) by lia.
  reflexivity.
Qed.

(** A group header: the fields are read, then the size is checked. *)
Lemma dump_group_header depth end_ c p st :
  0 ≤ p → p + 24 ≤ Z.of_nat (length c) → p + 24 ≤ end_ →
  slice c p (p + 4) = GRUP →
  let size := le_value (slice c (p + 4) (p + 4 + 4)) - 24 in
  dumpGRUPOrRecord zd (S depth) end_ (mkWorld (mkFile c p) st)
  = (if p + 24 + size >? end_ then on_file (seek end_)
     else while_tell_lt (loop_fuel size) (p + 24 + size)
            (dumpGRUPOrRecord zd depth (p + 24 + size)))
      (mkWorld (mkFile c (p + 24)) st).
Proof.
  intros Hp Hlen Hend Htag. cbn zeta.
  cbn [dumpGRUPOrRecord]. rewrite on_file_tell. cbn [ins position].
  destruct (Z.gtb_spec (p + 24) end_); [lia|].
  erewrite on_file_bind_ok by (apply read_at; lia).
  rewrite decide_True by done.
  erewrite on_file_bind_ok by (apply readUInt32_at; lia).
  erewrite on_file_bind_ok by (apply read_at; lia).
  destruct (readInt32_at c (p + 4 + 4 + 4)) as [v Hv]; [lia..|].
  erewrite on_file_bind_ok by exact Hv.
  erewrite on_file_bind_ok by (apply readUInt16_at; lia).
  erewrite on_file_bind_ok by (apply readUInt16_at; lia).
  erewrite on_file_bind_ok by (apply readUInt16_at; lia).
  erewrite on_file_bind_ok by (apply readUInt16_at; lia).
  replace (p + 4 + 4 + 4 + 4 + 2 + 2 + 2 + 2) with (p + 24) by lia.
  rewrite on_file_tell. reflexivity.
Qed.

(** The same two facts on the views of the cursor. *)
Lemma dump_record depth end_ w Type_ :
  header_available (ins w) → position (ins w) + 24 ≤ end_ →
  tag_at (ins w) ≠ GRUP →
  decode_ascii (tag_at (ins w)) = Ok Type_ →
  dumpGRUPOrRecord zd (S depth) end_ w
  = ((if Z.land (u32_at (ins w) 8) 0x20 =? 0
      then dumpRecordData zd Type_ (u32_at (ins w) 4) (u32_at (ins w) 8)
      else ret tt) ;;;
     on_file (seek (position (ins w) + u32_at (ins w) 4 + 24)))
      (mkWorld (set_position (position (ins w) + 24) (ins w)) (stats w)).
Proof.
  destruct w as [[c p] st]. unfold header_available, tag_at, u32_at, bytes_at,
    file_size, set_position. cbn [ins content position stats].
  replace (p + 0) with p by lia.
  replace (p + 8) with (p + 4 + 4) by lia.
  intros [Hp Hlen] Hend Htag Hdec.
  now apply dump_record_header.
Qed.

Lemma dump_group depth end_ w :
  header_available (ins w) → position (ins w) + 24 ≤ end_ →
  tag_at (ins w) = GRUP →
  let limit := position (ins w) + 24 + (u32_at (ins w) 4 - 24) in
  dumpGRUPOrRecord zd (S depth) end_ w
  = (if limit >? end_ then on_file (seek end_)
     else while_tell_lt (loop_fuel (u32_at (ins w) 4 - 24)) limit
            (dumpGRUPOrRecord zd depth limit))
      (mkWorld (set_position (position (ins w) + 24) (ins w)) (stats w)).
Proof.
  destruct w as [[c p] st]. unfold header_available, tag_at, u32_at, bytes_at,
    file_size, set_position. cbn [ins content position stats].
  replace (p + 0) with p by lia.
  intros [Hp Hlen] Hend Htag.
  now apply dump_group_header.
Qed.

(** The loop does nothing once the cursor has reached its limit. *)
Lemma while_done fuel limit body w :
  limit ≤ position (ins w) →
  while_tell_lt (S fuel) limit body w = (Ok tt, w).
Proof.
  intros H. cbn [while_tell_lt]. rewrite on_file_tell.
  destruct (Z.ltb_spec (position (ins w)) limit); [lia|]. reflexivity.
Qed.

(** An exception of the body ends the loop with that exception. *)
Lemma while_raise fuel limit body w e w' :
  position (ins w) < limit →
  body w = (Raise e, w') →
  while_tell_lt (S fuel) limit body w = (Raise e, w').
Proof.
  intros H Hb. cbn [while_tell_lt]. rewrite on_file_tell.
  destruct (Z.ltb_spec (position (ins w)) limit); [|lia].
  now apply bind_raise.
Qed.

Lemma while_step fuel limit body w w' :
  position (ins w) < limit →
  body w = (Ok tt, w') →
  while_tell_lt (S fuel) limit body w = while_tell_lt fuel limit body w'.
Proof.
  intros H Hb. cbn [while_tell_lt]. rewrite on_file_tell.
  destruct (Z.ltb_spec (position (ins w)) limit); [|lia].
  now rewrite (bind_ok _ _ _ _ _ Hb).
Qed.

End WalkerFacts.

(** ** The subrecord loop and its trace *)

Lemma WF_rec_keys_ok s : WF_rec s → dict_keys_ok s.
Proof.
  intros H k v Hk Hlen. specialize (H k v Hk). destruct v as [n|l|d].
  - destruct H as [-> | ->]; simpl in Hlen; lia.
  - subst k. simpl in Hlen. lia.
  - eauto.
Qed.

Lemma sub_header_facts data pos subSize subType pos' :
  0 ≤ pos →
  sub_header data pos = Ok (subSize, subType, pos') →
  (String.length subType ≤ 4)%nat ∧ pos + 6 ≤ pos' ∧ 0 ≤ subSize.
Proof.
  intros Hpos. unfold sub_header.
  destruct (decode_ascii (slice data pos (pos + 4))) as [t| |] eqn:Ht;
    simpl; try discriminate.
  destruct (decide (t = XXXX)) as [->|Hne].
  - destruct (unpack_unsigned 4 _) as [sz| |] eqn:Hsz; simpl; try discriminate.
    destruct (decode_ascii (slice data (pos + 4 + 4) _)) as [t'| |] eqn:Ht';
      simpl; try discriminate.
    intros [= <- <- <-].
    apply decode_ascii_length in Ht'.
    pose proof (slice_length_le data (pos + 4 + 4) (pos + 4 + 4 + 4)).
    unfold unpack_unsigned in Hsz. case_decide; [|discriminate].
    injection Hsz as <-.
    pose proof (le_value_range (slice data (pos + 4) (pos + 4 + 4))).
    repeat split; lia.
  - destruct (unpack_unsigned 2 _) as [sz| |] eqn:Hsz; simpl; try discriminate.
    intros [= <- <- <-].
    apply decode_ascii_length in Ht.
    pose proof (slice_length_le data pos (pos + 4)).
    unfold unpack_unsigned in Hsz. case_decide; [|discriminate].
    injection Hsz as <-.
    pose proof (le_value_range (slice data (pos + 4) (pos + 4 + 2))).
    repeat split; lia.
Qed.

Lemma sub_dict_insert_eq s k d :
  sub_dict (<[k := VDict d]> s) k = d.
Proof. unfold sub_dict. now rewrite lookup_insert_eq. Qed.

Lemma sub_dict_insert_ne s k k' v :
  k ≠ k' → sub_dict (<[k := v]> s) k' = sub_dict s k'.
Proof. intros H. unfold sub_dict. now rewrite lookup_insert_ne. Qed.

Lemma append_in_keys_ok field s kv :
  dict_keys_ok s → dict_keys_ok (append_in field s kv).
Proof.
  intros H k v Hk Hlen. unfold append_in in Hk.
  destruct (decide (kv.1 = k)) as [<-|Hne].
  - rewrite lookup_insert_eq in Hk. injection Hk as <-. eauto.
  - rewrite lookup_insert_ne in Hk by done. eauto.
Qed.

Lemma append_in_WF field s kv :
  (String.length kv.1 ≤ 4)%nat → WF_rec s → WF_rec (append_in field s kv).
Proof.
  intros Hlen H k v Hk. unfold append_in in Hk.
  destruct (decide (kv.1 = k)) as [<-|Hne].
  - rewrite lookup_insert_eq in Hk. injection Hk as <-. exact Hlen.
  - rewrite lookup_insert_ne in Hk by done. exact (H k v Hk).
Qed.

Lemma append_in_other field s kv k :
  kv.1 ≠ k → append_in field s kv !! k = s !! k.
Proof. intros H. unfold append_in. now rewrite lookup_insert_ne. Qed.

Lemma append_in_is_dict field s kv k :
  (∃ d, s !! k = Some (VDict d)) →
  ∃ d, append_in field s kv !! k = Some (VDict d).
Proof.
  intros [d Hd]. destruct (decide (kv.1 = k)) as [<-|Hne].
  - unfold append_in. rewrite lookup_insert_eq. eauto.
  - rewrite append_in_other by done. eauto.
Qed.

(** One reported subrecord: [setdefault] of its dictionary, then the
    append to its ['sizes']. *)
Lemma note_subrecord {B} (k : string) (n : Z) (K : ST RecDict B) s :
  dict_keys_ok s → (String.length k ≤ 4)%nat →
  (setdefault_dict k ;;; sub_setdefault_append k "sizes" n ;;; K) s
  = K (append_in "sizes" s (k, n)).
Proof.
  intros Hok Hlen. unfold bind, setdefault_dict, sub_setdefault_append,
    append_in, sub_dict, list_field. simpl.
  destruct (s !! k) as [v|] eqn:Hk.
  - destruct (Hok k v Hk Hlen) as [d ->]. now rewrite Hk.
  - rewrite lookup_insert_eq. rewrite insert_insert_eq.
    rewrite lookup_empty. reflexivity.
Qed.

(** The append to ['counts'] at the end of [dumpSubRecords]. *)
Lemma note_count (k : string) (n : Z) s :
  (∃ d, s !! k = Some (VDict d)) →
  sub_setdefault_append k "counts" n s = (Ok tt, append_in "counts" s (k, n)).
Proof.
  intros [d Hd]. unfold sub_setdefault_append, append_in, sub_dict, list_field.
  simpl. now rewrite Hd.
Qed.

(** The loop performs the dictionary updates of its trace. *)
Lemma loop_trace fuel : ∀ data pos counts s,
  0 ≤ pos → dict_keys_ok s →
  dumpSubRecords_loop fuel data pos counts s
  = (res_of (sub_trace fuel data pos).2
            (count_all (sub_trace fuel data pos).1 counts),
     fold_left (append_in "sizes") (sub_trace fuel data pos).1 s).
Proof.
  induction fuel as [|fuel IH]; intros data pos counts s Hpos Hok.
  - simpl. destruct (pos <? _); reflexivity.
  - cbn [dumpSubRecords_loop sub_trace].
    destruct (pos <? Z.of_nat (length data) - 6); [|reflexivity].
    unfold lift at 1. unfold bind at 1.
    destruct (sub_header data pos) as [[[sz ty] pos']| |] eqn:Hh;
      [|reflexivity..].
    destruct (sub_header_facts _ _ _ _ _ Hpos Hh) as (Hlen & Hp' & Hsz).
    destruct (pos' + sz >? Z.of_nat (length data)); [reflexivity|].
    rewrite note_subrecord by done.
    rewrite IH by (auto using append_in_keys_ok; lia).
    destruct (sub_trace fuel data (pos' + sz)) as [l r]. reflexivity.
Qed.

Lemma for_each_counts counts : ∀ s,
  (∀ kv, kv ∈ counts → ∃ d, s !! kv.1 = Some (VDict d)) →
  for_each counts (λ kv, sub_setdefault_append kv.1 "counts" kv.2) s
  = (Ok tt, fold_left (append_in "counts") counts s).
Proof.
  induction counts as [|[k n] counts IH]; intros s H; [reflexivity|].
  cbn [for_each fold_left].
  erewrite bind_ok by (apply note_count, (H (k, n)); left).
  apply IH. intros kv Hkv. apply append_in_is_dict, H. now right.
Qed.

Lemma sub_trace_keys fuel : ∀ data pos,
  0 ≤ pos →
  Forall (λ kv, (String.length kv.1 ≤ 4)%nat) (sub_trace fuel data pos).1.
Proof.
  induction fuel as [|fuel IH]; intros data pos Hpos.
  - simpl. destruct (pos <? _); constructor.
  - cbn [sub_trace].
    destruct (pos <? Z.of_nat (length data) - 6); [|constructor].
    destruct (sub_header data pos) as [[[sz ty] pos']| |] eqn:Hh;
      [|constructor..].
    destruct (sub_header_facts _ _ _ _ _ Hpos Hh) as (Hlen & Hp' & Hsz).
    destruct (pos' + sz >? Z.of_nat (length data)); [constructor|].
    specialize (IH data (pos' + sz) ltac:(lia)).
    destruct (sub_trace fuel data (pos' + sz)) as [l r]. now constructor.
Qed.

(** The loop ends within [length data] iterations. *)
Lemma sub_trace_fuel fuel : ∀ data pos,
  0 ≤ pos → Z.of_nat (length data) - 6 - pos ≤ Z.of_nat fuel →
  (sub_trace fuel data pos).2 ≠ Fuel.
Proof.
  induction fuel as [|fuel IH]; intros data pos Hpos Hfuel.
  - simpl. destruct (Z.ltb_spec pos (Z.of_nat (length data) - 6)); [lia|done].
  - cbn [sub_trace].
    destruct (pos <? Z.of_nat (length data) - 6); [|done].
    destruct (sub_header data pos) as [[[sz ty] pos']| |] eqn:Hh; [|done|].
    + destruct (sub_header_facts _ _ _ _ _ Hpos Hh) as (Hlen & Hp' & Hsz).
      destruct (pos' + sz >? Z.of_nat (length data)); [done|].
      specialize (IH data (pos' + sz) ltac:(lia) ltac:(lia)).
      now destruct (sub_trace fuel data (pos' + sz)) as [l r].
    + unfold sub_header in Hh.
      unfold res_bind, decode_ascii, unpack_unsigned in Hh.
      repeat (case_match; try discriminate).
Qed.

Lemma subrecords_no_fuel data : (subrecords data).2 ≠ Fuel.
Proof. apply sub_trace_fuel; lia. Qed.

Lemma subrecords_keys data :
  Forall (λ kv, (String.length kv.1 ≤ 4)%nat) (subrecords data).1.
Proof. now apply sub_trace_keys. Qed.

(** *** The folds over a trace *)

Lemma fold_append_other field tr : ∀ s k,
  k ∉ tr.*1 → fold_left (append_in field) tr s !! k = s !! k.
Proof.
  induction tr as [|kv tr IH]; intros s k Hk; [reflexivity|].
  cbn [fold_left]. rewrite fmap_cons, not_elem_of_cons in Hk.
  destruct Hk as [Hne Hk]. rewrite IH by done.
  now apply append_in_other.
Qed.

Lemma fold_append_is_dict field tr : ∀ s k,
  (∃ d, s !! k = Some (VDict d)) →
  ∃ d, fold_left (append_in field) tr s !! k = Some (VDict d).
Proof.
  induction tr as [|kv tr IH]; intros s k H; [done|].
  cbn [fold_left]. now apply IH, append_in_is_dict.
Qed.

Lemma fold_append_key_is_dict field tr : ∀ s k,
  k ∈ tr.*1 →
  ∃ d, fold_left (append_in field) tr s !! k = Some (VDict d).
Proof.
  induction tr as [|kv tr IH]; intros s k Hk.
  - now apply elem_of_nil in Hk.
  - cbn [fold_left]. rewrite fmap_cons in Hk.
    apply elem_of_cons in Hk as [->|Hk]; [|now apply IH].
    apply fold_append_is_dict. unfold append_in.
    rewrite lookup_insert_eq. eauto.
Qed.

Lemma fold_append_keys_ok field tr : ∀ s,
  dict_keys_ok s → dict_keys_ok (fold_left (append_in field) tr s).
Proof.
  induction tr as [|kv tr IH]; intros s H; [done|].
  cbn [fold_left]. now apply IH, append_in_keys_ok.
Qed.

Lemma fold_append_WF field tr : ∀ s,
  Forall (λ kv, (String.length kv.1 ≤ 4)%nat) tr →
  WF_rec s → WF_rec (fold_left (append_in field) tr s).
Proof.
  induction tr as [|kv tr IH]; intros s Hk H; [done|].
  cbn [fold_left]. inversion Hk; subst. now apply IH, append_in_WF.
Qed.

(** Appending to one list of a subrecord dictionary leaves the other. *)
Lemma append_in_field field field' s kv k :
  field ≠ field' →
  list_field (sub_dict (append_in field s kv) k) field'
  = list_field (sub_dict s k) field'.
Proof.
  intros Hf. unfold append_in. destruct (decide (kv.1 = k)) as [<-|Hne].
  - rewrite sub_dict_insert_eq. unfold list_field.
    now rewrite lookup_insert_ne.
  - now rewrite sub_dict_insert_ne.
Qed.

Lemma fold_append_field field field' tr : ∀ s k,
  field ≠ field' →
  list_field (sub_dict (fold_left (append_in field) tr s) k) field'
  = list_field (sub_dict s k) field'.
Proof.
  induction tr as [|kv tr IH]; intros s k Hf; [reflexivity|].
  cbn [fold_left]. rewrite IH by done. now apply append_in_field.
Qed.

Lemma append_in_field_eq field s kv :
  list_field (sub_dict (append_in field s kv) kv.1) field
  = list_field (sub_dict s kv.1) field ++ [kv.2].
Proof.
  unfold append_in. rewrite sub_dict_insert_eq. unfold list_field at 1.
  now rewrite lookup_insert_eq.
Qed.

Lemma append_in_field_ne field s kv k :
  kv.1 ≠ k →
  sub_dict (append_in field s kv) k = sub_dict s k.
Proof. intros H. unfold append_in. now rewrite sub_dict_insert_ne. Qed.

Lemma sub_dict_lookup_eq (s s' : gmap string PyVal) k :
  s !! k = s' !! k → sub_dict s k = sub_dict s' k.
Proof. unfold sub_dict. now intros ->. Qed.

(** With distinct keys, each list grows by at most one element. *)
Lemma fold_counts_length cs : ∀ s k,
  NoDup cs.*1 →
  (length (list_field (sub_dict (fold_left (append_in "counts") cs s) k)
             "counts")
   ≤ S (length (list_field (sub_dict s k) "counts")))%nat.
Proof.
  induction cs as [|kv cs IH]; intros s k Hnd; [simpl; lia|].
  cbn [fold_left]. rewrite fmap_cons in Hnd.
  apply NoDup_cons in Hnd as [Hnotin Hnd].
  destruct (decide (kv.1 = k)) as [<-|Hne].
  - rewrite (sub_dict_lookup_eq _ (append_in "counts" s kv))
      by now apply fold_append_other.
    rewrite append_in_field_eq, length_app. simpl. lia.
  - etransitivity; [apply IH; done|].
    now rewrite append_in_field_ne.
Qed.

(** *** The local dictionary [counts] *)

Lemma counts_set_keys c k n :
  (counts_set c k n).*1 = if decide (k ∈ c.*1) then c.*1 else c.*1 ++ [k].
Proof.
  induction c as [|[k' n'] c IH]; [done|].
  cbn [counts_set]. rewrite fmap_cons. cbn [fst].
  destruct (decide (k' = k)) as [->|Hne].
  - rewrite decide_True; [done|]. left.
  - rewrite fmap_cons. cbn [fst]. rewrite IH.
    destruct (decide (k ∈ c.*1)) as [Hin|Hnotin].
    + rewrite decide_True; [done|]. now right.
    + rewrite decide_False; [done|].
      rewrite not_elem_of_cons. split; [congruence|done].
Qed.

Lemma counts_set_NoDup c k n :
  NoDup c.*1 → NoDup (counts_set c k n).*1.
Proof.
  intros H. rewrite counts_set_keys. case_decide; [done|].
  apply NoDup_app. split; [done|]. split.
  - intros x Hx Hx'. apply list_elem_of_singleton in Hx'. now subst.
  - apply NoDup_singleton.
Qed.

Lemma count_all_NoDup tr : ∀ c, NoDup c.*1 → NoDup (count_all tr c).*1.
Proof.
  unfold count_all.
  induction tr as [|kv tr IH]; intros c H; [done|].
  cbn [fold_left]. now apply IH, counts_set_NoDup.
Qed.

Lemma count_all_keys tr : ∀ c k,
  k ∈ (count_all tr c).*1 → k ∈ c.*1 ∨ k ∈ tr.*1.
Proof.
  unfold count_all.
  induction tr as [|kv tr IH]; intros c k H; [now left|].
  cbn [fold_left] in H. apply IH in H as [H|H].
  - rewrite counts_set_keys in H. case_decide; [now left|].
    apply elem_of_app in H as [H|H]; [now left|].
    apply list_elem_of_singleton in H as ->. right. rewrite fmap_cons. left.
  - right. rewrite fmap_cons. now right.
Qed.

(** *** What [dumpSubRecords] does to the dictionary *)

Lemma dumpSubRecords_spec data s :
  dict_keys_ok s →
  let tr := (subrecords data).1 in
  let s1 := fold_left (append_in "sizes") tr s in
  dumpSubRecords data s
  = match (subrecords data).2 with
    | Ok _ => (Ok tt, fold_left (append_in "counts") (count_all tr []) s1)
    | Raise e => (Raise e, s1)
    | Fuel => (Fuel, s1)
    end.
Proof.
  intros Hok tr s1. unfold dumpSubRecords, bind.
  rewrite loop_trace by (done || lia).
  fold (subrecords data). fold tr. fold s1.
  destruct (subrecords data).2 as [[]|e|]; simpl; [|done..].
  apply for_each_counts. intros kv Hkv.
  assert (kv.1 ∈ (count_all tr []).*1) as Hin
      by (apply list_elem_of_fmap; eauto).
  apply count_all_keys in Hin as [Hin|Hin].
  - now apply elem_of_nil in Hin.
  - now apply fold_append_key_is_dict.
Qed.

(** ** The statistics of one record *)

Ltac tidy :=
  cbn [ins stats fst snd default from_option id];
  rewrite ?lookup_insert_eq;
  cbn [ins stats fst snd default from_option id];
  rewrite ?insert_insert_eq.

Section RecordFacts.
Variable zd : list byte → option (list byte).

Lemma on_record_run {A} T (m : ST RecDict A) f st s :
  default ∅ (st !! T) = s →
  on_record T m (mkWorld f st)
  = ((m s).1, mkWorld f (<[T := (m s).2]> st)).
Proof. intros <-. unfold on_record. simpl. now destruct (m _). Qed.

Lemma WF_rec_int s k :
  WF_rec s → k = "count"%string ∨ k = "compressed"%string →
  ∃ n, default (VInt 0) (s !! k) = VInt n.
Proof.
  intros H Hk. destruct (s !! k) as [v|] eqn:E; [|simpl; eauto].
  specialize (H k v E). destruct v as [n|l|d]; simpl; [eauto|..].
  - destruct Hk; subst; discriminate.
  - destruct Hk; subst; simpl in H; lia.
Qed.

Lemma WF_stats_default st T : WF_stats st → WF_rec (default ∅ (st !! T)).
Proof.
  intros H. destruct (st !! T) as [s|] eqn:E; simpl; [eauto|].
  intros k v Hk. now rewrite lookup_empty in Hk.
Qed.

Lemma dumpRecordData_eq T ds fl w :
  WF_stats (stats w) →
  dumpRecordData zd T ds fl w
  = ((record_stats zd fl (file_read ds (ins w)).1 (default ∅ (stats w !! T))).1,
     mkWorld (file_read ds (ins w)).2
       (<[T := (record_stats zd fl (file_read ds (ins w)).1
                  (default ∅ (stats w !! T))).2]> (stats w))).
Proof.
  destruct w as [f st]. cbn [ins stats]. intros HWF.
  apply (WF_stats_default _ T) in HWF.
  destruct (WF_rec_int _ "count" HWF) as [n Hn]; [now left|].
  revert Hn.
  unfold dumpRecordData, record_stats.
  unfold bind, on_record, on_file, dict_get, dict_set, gets, modify, lift,
    ret, read.
  cbv beta. tidy.
  destruct (file_read ds f) as [data f'].
  generalize (default ∅ (st !! T)). intros s0 ->. cbn [py_succ]. tidy.
  destruct (Z.land fl _ =? 0); tidy.
  - destruct (setdefault_append _ _ _) as [[[]| |] s2]; tidy; try reflexivity.
    destruct (dumpSubRecords _ _) as [r3 s3]; tidy. reflexivity.
  - destruct (unpack_unsigned 4 _) as [u| |]; tidy; try reflexivity.
    destruct (decompress zd _) as [d| |]; tidy; try reflexivity.
    destruct (py_succ _) as [a'| |]; tidy; try reflexivity.
    destruct (setdefault_append _ _ _) as [[[]| |] s2]; tidy; try reflexivity.
    destruct (dumpSubRecords _ _) as [r3 s3]; tidy. reflexivity.
Qed.

Lemma WF_rec_int_field s k :
  WF_rec s → k = "count"%string ∨ k = "compressed"%string →
  default (VInt 0) (s !! k) = VInt (int_field s k).
Proof.
  intros H Hk. destruct (WF_rec_int s k H Hk) as [n Hn].
  unfold int_field. rewrite Hn. destruct (s !! k) as [v|]; simpl in *.
  - now subst v.
  - congruence.
Qed.

Lemma WF_rec_sizes s x :
  WF_rec s →
  setdefault_append "sizes" x s
  = (Ok tt, <["sizes"%string := VList (sizes_of s ++ [x])]> s).
Proof.
  intros H. unfold setdefault_append, sizes_of.
  destruct (s !! "sizes"%string) as [v|] eqn:E; [|done].
  specialize (H _ _ E). destruct v as [n|l|d]; [|done|].
  - destruct H; discriminate.
  - simpl in H. lia.
Qed.

Lemma WF_rec_insert s k v :
  WF_rec s →
  match v with
  | VDict _ => (String.length k ≤ 4)%nat
  | VInt _ => k = "count"%string ∨ k = "compressed"%string
  | VList _ => k = "sizes"%string
  end →
  WF_rec (<[k := v]> s).
Proof.
  intros H Hv k' v' Hk'. destruct (decide (k = k')) as [<-|Hne].
  - rewrite lookup_insert_eq in Hk'. now injection Hk' as <-.
  - rewrite lookup_insert_ne in Hk' by done. exact (H _ _ Hk').
Qed.

Lemma recorded_WF c n s : WF_rec s → WF_rec (recorded c n s).
Proof.
  intros H. unfold recorded. apply WF_rec_insert; [|done].
  destruct c; repeat (apply WF_rec_insert; [|auto]); done.
Qed.

Lemma slice_prefix_length data :
  (4 ≤ length data)%nat → length (slice data 0 4) = 4%nat.
Proof.
  intros H. unfold slice. simpl. rewrite length_take, drop_0. lia.
Qed.

Lemma slice_prefix_short data :
  (length data < 4)%nat → length (slice data 0 4) ≠ 4%nat.
Proof.
  intros H. unfold slice. simpl. rewrite length_take, drop_0. lia.
Qed.

(** An uncompressed record: count and size are stored, then the
    subrecords of the bytes read are parsed. *)
Lemma record_stats_plain flags data s :
  WF_rec s → Z.land flags 0x00040000 = 0 →
  record_stats zd flags data s
  = dumpSubRecords data (recorded false (Z.of_nat (length data)) s).
Proof.
  intros H Hfl. unfold record_stats, bind, dict_get, dict_set, gets, modify,
    lift, ret.
  rewrite (WF_rec_int_field s "count" H) by now left.
  cbn [py_succ]. rewrite Hfl. cbn [Z.eqb].
  rewrite WF_rec_sizes by (apply WF_rec_insert; [done|now left]).
  unfold recorded, sizes_of. now rewrite lookup_insert_ne.
Qed.

(** A compressed record that inflates to [d]. *)
Lemma record_stats_compressed flags data d s :
  WF_rec s → Z.land flags 0x00040000 ≠ 0 →
  (4 ≤ length data)%nat → zd (drop 4 data) = Some d →
  record_stats zd flags data s
  = dumpSubRecords d (recorded true (Z.of_nat (length d)) s).
Proof.
  intros H Hfl Hlen Hzd. unfold record_stats, bind, dict_get, dict_set, gets,
    modify, lift, ret.
  rewrite (WF_rec_int_field s "count" H) by now left.
  cbn [py_succ]. destruct (Z.eqb_spec (Z.land flags 262144) 0); [done|].
  unfold unpack_unsigned. rewrite decide_True by now apply slice_prefix_length.
  unfold decompress. rewrite Hzd.
  rewrite lookup_insert_ne by done.
  rewrite (WF_rec_int_field s "compressed" H) by now right.
  cbn [py_succ].
  rewrite WF_rec_sizes
    by (repeat (apply WF_rec_insert; [|auto]); done).
  unfold recorded, sizes_of. now rewrite !lookup_insert_ne.
Qed.

(** A compressed record whose payload does not inflate: only the count
    has been stored when [zlib.error] is raised. *)
Lemma record_stats_corrupt flags data s :
  WF_rec s → Z.land flags 0x00040000 ≠ 0 →
  (4 ≤ length data)%nat → zd (drop 4 data) = None →
  record_stats zd flags data s
  = (Raise ZlibError,
     <["count"%string := VInt (int_field s "count" + 1)]> s).
Proof.
  intros H Hfl Hlen Hzd. unfold record_stats, bind, dict_get, dict_set, gets,
    modify, lift, ret.
  rewrite (WF_rec_int_field s "count" H) by now left.
  cbn [py_succ]. destruct (Z.eqb_spec (Z.land flags 262144) 0); [done|].
  unfold unpack_unsigned. rewrite decide_True by now apply slice_prefix_length.
  unfold decompress. now rewrite Hzd.
Qed.

(** A compressed record with fewer than four bytes of data. *)
Lemma record_stats_short flags data s :
  WF_rec s → Z.land flags 0x00040000 ≠ 0 →
  (length data < 4)%nat →
  record_stats zd flags data s
  = (Raise StructError,
     <["count"%string := VInt (int_field s "count" + 1)]> s).
Proof.
  intros H Hfl Hlen. unfold record_stats, bind, dict_get, dict_set, gets,
    modify, lift, ret.
  rewrite (WF_rec_int_field s "count" H) by now left.
  cbn [py_succ]. destruct (Z.eqb_spec (Z.land flags 262144) 0); [done|].
  unfold unpack_unsigned.
  now rewrite decide_False by now apply slice_prefix_short.
Qed.

End RecordFacts.

(** ** The shape of one call of [dumpGRUPOrRecord] *)

Lemma at_at q q' w : at_ q (at_ q' w) = at_ q w.
Proof. reflexivity. Qed.

Lemma at_position w : at_ (position (ins w)) w = w.
Proof. now destruct w as [[c p] st]. Qed.

Lemma file_op_read n : file_op (read n).
Proof.
  intros f. unfold read, file_read. simpl. split; [left; eauto|done].
Qed.

Lemma file_op_bind_lift {A B} (m : ST FileReader A) (g : A → res B) :
  file_op m → (∀ a, (∃ b, g a = Ok b) ∨ g a = Raise StructError) →
  file_op (do b <- m; lift (g b)).
Proof.
  intros Hm Hg f. specialize (Hm f). unfold bind, lift.
  destruct (m f) as [[a|e|] f']; simpl in *; destruct Hm as [Hr Hc].
  - split; [apply Hg | exact Hc].
  - split; [|exact Hc].
    destruct Hr as [[a Ha]|[= ->]]; [discriminate|now right].
  - destruct Hr as [[a Ha]|Hr]; discriminate.
Qed.

Lemma unpack_unsigned_cases width b :
  (∃ v, unpack_unsigned width b = Ok v)
  ∨ unpack_unsigned width b = Raise StructError.
Proof. unfold unpack_unsigned. case_decide; eauto. Qed.

Lemma unpack_signed_cases width b :
  (∃ v, unpack_signed width b = Ok v)
  ∨ unpack_signed width b = Raise StructError.
Proof. unfold unpack_signed. case_decide; eauto. Qed.

Lemma file_op_readFixed width signed : file_op (readFixed width signed).
Proof.
  apply (file_op_bind_lift (read (Z.of_nat width))
           (λ b, if signed then unpack_signed width b
                 else unpack_unsigned width b));
    [apply file_op_read|].
  intros a. destruct signed;
    [apply unpack_signed_cases|apply unpack_unsigned_cases].
Qed.

Lemma file_op_readUInt32 : file_op readUInt32.
Proof. apply file_op_readFixed. Qed.

Lemma file_op_readUInt16 : file_op readUInt16.
Proof. apply file_op_readFixed. Qed.

Lemma file_op_readInt32 : file_op readInt32.
Proof. apply file_op_readFixed. Qed.

(** A file operation either continues with the cursor moved, or raises
    [struct.error] with the cursor moved. *)
Lemma bind_on_file_cases {A B} (m : ST FileReader A) (k : A → ST World B) w :
  file_op m →
  (∃ a q, bind (on_file m) k w = k a (at_ q w))
  ∨ (∃ q, bind (on_file m) k w = (Raise StructError, at_ q w)).
Proof.
  intros Hm. destruct w as [f st]. specialize (Hm f).
  unfold bind, on_file, at_, set_position. cbn [ins stats].
  destruct (m f) as [[a|e|] [c' p']]; simpl in *; destruct Hm as [Hr <-].
  - left. eauto.
  - right. destruct Hr as [[a Ha]|[= ->]]; [discriminate|]. eauto.
  - destruct Hr as [[a Ha]|Hr]; discriminate.
Qed.

(** One header read in the goal: either it goes on, or the call ends
    with its exception and the cursor moved. *)
Ltac file_step :=
  match goal with
  | |- context [bind (on_file ?m) ?k ?w0] =>
      let H := fresh in
      assert (file_op m) as H
        by first [apply file_op_read | apply file_op_readUInt32
                 | apply file_op_readUInt16 | apply file_op_readInt32];
      destruct (bind_on_file_cases m k w0 H)
        as [(? & ? & ->)|(? & ->)]; clear H;
      rewrite ?at_at;
      [|left; eexists _, (Raise StructError);
        split; [right; left; reflexivity|reflexivity]]
  end.

Lemma seek_shape p w :
  ∃ q r, header_result r ∧ on_file (seek p) w = (r, at_ q w).
Proof.
  destruct (on_file_seek_cases p w) as [->| ->].
  - exists p, (Ok tt). split; [now left|reflexivity].
  - exists (position (ins w)), (Raise OSError).
    split; [now right; right; right; left|]. now rewrite at_position.
Qed.

Section Shape.

Variable zd : list byte → option (list byte).

(** One call either only moves the cursor (padding, a group that
    overruns, a header that cannot be read or decoded), or runs the loop
    of a group, or handles one record. *)
Lemma dump_shape depth end_ w :
  (∃ q r, header_result r
          ∧ dumpGRUPOrRecord zd depth end_ w = (r, at_ q w))
  ∨ (∃ depth' q limit n,
       depth = S depth'
       ∧ dumpGRUPOrRecord zd depth end_ w
         = while_tell_lt n limit (dumpGRUPOrRecord zd depth' limit) (at_ q w))
  ∨ (∃ q Type_ dataSize flags p,
       dumpGRUPOrRecord zd depth end_ w
       = ((if Z.land flags 0x20 =? 0
           then dumpRecordData zd Type_ dataSize flags else ret tt) ;;;
          on_file (seek p)) (at_ q w)).
Proof.
  destruct depth as [|depth']; cbn [dumpGRUPOrRecord]; rewrite on_file_tell.
  - destruct (position (ins w) + 24 >? end_).
    { left. apply seek_shape. }
    file_step.
    match goal with |- context [decide (?g = GRUP)] => rename g into grup end.
    left. destruct (decide (grup = GRUP)) as [_|_].
    + eexists _, (Raise RecursionError).
      split; [now right; right; right; right|reflexivity].
    + rewrite bind_lift.
      destruct (decode_ascii grup) as [Type_|e|] eqn:Hdec.
      * eexists _, (Raise RecursionError).
        split; [now right; right; right; right|reflexivity].
      * eexists _, (Raise e). split; [|reflexivity].
        unfold decode_ascii in Hdec. destruct (forallb _ _); [done|].
        injection Hdec as <-. now right; right; left.
      * unfold decode_ascii in Hdec. now destruct (forallb _ _).
  - destruct (position (ins w) + 24 >? end_).
    { left. apply seek_shape. }
    file_step.
    match goal with |- context [decide (?g = GRUP)] => rename g into grup end.
    destruct (decide (grup = GRUP)) as [_|_].
    + repeat file_step.
      rewrite on_file_tell.
      match goal with |- context [if ?b then _ else _] => destruct b end.
      * left.
        match goal with
        | |- context [on_file (seek ?p) ?w0] =>
            destruct (seek_shape p w0) as (? & ? & ? & ->)
        end.
        rewrite ?at_at. eauto.
      * right. left. eauto 10.
    + rewrite bind_lift.
      destruct (decode_ascii grup) as [Type_|e|] eqn:Hdec.
      2: { left. eexists _, (Raise e). split; [|reflexivity].
           unfold decode_ascii in Hdec. destruct (forallb _ _); [done|].
           injection Hdec as <-. now right; right; left. }
      2: { unfold decode_ascii in Hdec. now destruct (forallb _ _). }
      repeat file_step.
      right. right. eauto 10.
Qed.

End Shape.

(** ** Invariants of the statistics *)

Lemma keys_le_refl s : keys_le s s.
Proof. now intros k. Qed.

Lemma keys_le_trans s1 s2 s3 : keys_le s1 s2 → keys_le s2 s3 → keys_le s1 s3.
Proof. intros H1 H2 k Hk. now apply H2, H1. Qed.

Lemma keys_le_insert s k v : keys_le s (<[k := v]> s).
Proof.
  intros k' Hk'. destruct (decide (k = k')) as [<-|Hne].
  - rewrite lookup_insert_eq. eauto.
  - now rewrite lookup_insert_ne.
Qed.

Lemma keys_le_fold field tr : ∀ s,
  keys_le s (fold_left (append_in field) tr s).
Proof.
  induction tr as [|kv tr IH]; intros s; [apply keys_le_refl|].
  cbn [fold_left]. eapply keys_le_trans; [|apply IH].
  apply keys_le_insert.
Qed.

Lemma keys_le_recorded c n s : keys_le s (recorded c n s).
Proof.
  unfold recorded.
  destruct c; repeat (eapply keys_le_trans; [|apply keys_le_insert]);
    apply keys_le_refl.
Qed.

Lemma sub_header_exn data pos :
  allowed_exn (sub_header data pos) ∧ sub_header data pos ≠ Fuel.
Proof.
  unfold sub_header, res_bind, decode_ascii, unpack_unsigned.
  repeat (case_match; simplify_eq/=; try (split; [naive_solver|done])).
Qed.

Lemma sub_trace_exn fuel : ∀ data pos,
  allowed_exn (sub_trace fuel data pos).2.
Proof.
  induction fuel as [|fuel IH]; intros data pos.
  - simpl. now destruct (pos <? _).
  - cbn [sub_trace].
    destruct (pos <? Z.of_nat (length data) - 6); [|done].
    pose proof (sub_header_exn data pos) as [He _].
    destruct (sub_header data pos) as [[[sz ty] pos']| |]; [|done..].
    destruct (pos' + sz >? Z.of_nat (length data)); [done|].
    specialize (IH data (pos' + sz)).
    now destruct (sub_trace fuel data (pos' + sz)) as [l r].
Qed.

Lemma long_key_not_in (tr : list (string * Z)) k :
  Forall (λ kv, (String.length kv.1 ≤ 4)%nat) tr →
  (4 < String.length k)%nat → k ∉ tr.*1.
Proof.
  intros H Hk Hin. apply list_elem_of_fmap in Hin as (kv & -> & Hkv).
  rewrite Forall_forall in H. specialize (H _ Hkv). lia.
Qed.

Lemma count_all_short tr :
  Forall (λ kv, (String.length kv.1 ≤ 4)%nat) tr →
  Forall (λ kv, (String.length kv.1 ≤ 4)%nat) (count_all tr []).
Proof.
  intros H. apply Forall_forall. intros kv Hkv.
  assert (kv.1 ∈ (count_all tr []).*1) as Hin
      by (apply list_elem_of_fmap; eauto).
  apply count_all_keys in Hin as [Hin|Hin].
  - now apply elem_of_nil in Hin.
  - apply list_elem_of_fmap in Hin as (kv' & -> & Hkv').
    rewrite Forall_forall in H. now apply H.
Qed.

(** What [dumpSubRecords] guarantees on a well-typed dictionary. *)
Lemma dumpSubRecords_post data s :
  WF_rec s →
  WF_rec (dumpSubRecords data s).2
  ∧ keys_le s (dumpSubRecords data s).2
  ∧ allowed_exn (dumpSubRecords data s).1
  ∧ (dumpSubRecords data s).1 ≠ Fuel
  ∧ (∀ k, (4 < String.length k)%nat →
          (dumpSubRecords data s).2 !! k = s !! k)
  ∧ ((dumpSubRecords data s).1 = Ok tt →
     Inv_at 1 s → Inv_at 0 (dumpSubRecords data s).2).
Proof.
  intros HWF.
  rewrite dumpSubRecords_spec by now apply WF_rec_keys_ok.
  pose proof (subrecords_keys data) as Hkeys.
  pose proof (subrecords_no_fuel data) as Hfuel.
  pose proof (sub_trace_exn (length data) data 0) as Hexn.
  fold (subrecords data) in Hexn.
  set (tr := (subrecords data).1) in *.
  set (s1 := fold_left (append_in "sizes") tr s).
  assert (WF_rec s1) as HWF1 by now apply fold_append_WF.
  assert (keys_le s s1) as Hle1 by apply keys_le_fold.
  assert (∀ k, (4 < String.length k)%nat → s1 !! k = s !! k) as Hlong1.
  { intros k Hk. apply fold_append_other. now apply long_key_not_in. }
  destruct (subrecords data).2 as [[]|e|]; cbn [fst snd];
    [|repeat split; auto; discriminate|done].
  pose proof (count_all_short tr Hkeys) as Hck.
  set (s2 := fold_left (append_in "counts") (count_all tr []) s1).
  assert (∀ k, (4 < String.length k)%nat → s2 !! k = s !! k) as Hlong2.
  { intros k Hk. rewrite <- Hlong1 by done.
    apply fold_append_other. now apply long_key_not_in. }
  split; [now apply fold_append_WF|].
  split; [eapply keys_le_trans; [exact Hle1|apply keys_le_fold]|].
  split; [done|]. split; [done|]. split; [exact Hlong2|].
  intros _ (sz & Hsz & Hcount & Hsizes & Hcomp & Hsub).
  exists sz. split; [lia|].
  rewrite !Hlong2 by (simpl; lia).
  split; [done|]. split; [done|]. split; [done|].
  intros k d Hk. simpl.
  assert (d = sub_dict s2 k) as -> by (unfold sub_dict; now rewrite Hk).
  etransitivity.
  { apply fold_counts_length, count_all_NoDup. constructor. }
  fold s1. unfold s1. rewrite fold_append_field by done.
  unfold sub_dict. destruct (s !! k) as [[n|l|d0]|] eqn:Hs;
    try (unfold list_field; rewrite lookup_empty; simpl; lia).
  specialize (Hsub _ _ Hs). lia.
Qed.

Lemma Inv_rec_at s : Inv_rec s ↔ Inv_at 0 s.
Proof.
  split.
  - intros (sz & H1 & H2 & H3 & H4). exists sz. repeat split; auto with lia.
  - intros (sz & _ & H1 & H2 & H3 & H4). exists sz. repeat split; auto.
Qed.

Lemma recorded_lookup_sub c n s k d :
  recorded c n s !! k = Some (VDict d) → s !! k = Some (VDict d).
Proof.
  unfold recorded. intros H.
  destruct (decide (k = "sizes"%string)) as [->|H1];
    [now rewrite lookup_insert_eq in H|].
  rewrite lookup_insert_ne in H by done.
  destruct (decide (k = "count"%string)) as [->|H2].
  { destruct c; [rewrite lookup_insert_ne in H by done|];
      now rewrite lookup_insert_eq in H. }
  destruct c.
  - destruct (decide (k = "compressed"%string)) as [->|H3];
      [now rewrite lookup_insert_eq in H|].
    now rewrite !lookup_insert_ne in H by done.
  - now rewrite lookup_insert_ne in H by done.
Qed.

Lemma recorded_count c n s :
  recorded c n s !! "count"%string = Some (VInt (int_field s "count" + 1)).
Proof.
  unfold recorded. rewrite lookup_insert_ne by done.
  destruct c; [rewrite lookup_insert_ne by done|]; apply lookup_insert_eq.
Qed.

Lemma recorded_sizes c n s :
  recorded c n s !! "sizes"%string = Some (VList (sizes_of s ++ [n])).
Proof. unfold recorded. apply lookup_insert_eq. Qed.

Lemma recorded_compressed c n s :
  recorded c n s !! "compressed"%string
  = if c then Some (VInt (int_field s "compressed" + 1))
    else s !! "compressed"%string.
Proof.
  unfold recorded. rewrite lookup_insert_ne by done.
  destruct c; [apply lookup_insert_eq|now rewrite lookup_insert_ne].
Qed.

(** Counting a record keeps the invariant, one occurrence sample per
    subrecord type being due. *)
Lemma recorded_Inv c n s :
  s = ∅ ∨ Inv_at 0 s → Inv_at 1 (recorded c n s).
Proof.
  intros [->|(sz & _ & Hcount & Hsizes & Hcomp & Hsub)].
  - exists [n]. rewrite recorded_count, recorded_sizes, recorded_compressed.
    unfold int_field, sizes_of. rewrite !lookup_empty. simpl.
    split; [lia|]. split; [done|]. split; [done|]. split.
    + destruct c; [right; exists 1; split; [done|lia]|now left].
    + intros k d Hk. apply recorded_lookup_sub in Hk.
      now rewrite lookup_empty in Hk.
  - exists (sz ++ [n]).
    rewrite recorded_count, recorded_sizes, recorded_compressed.
    unfold int_field, sizes_of. rewrite Hcount, Hsizes, length_app. simpl.
    split; [lia|]. split; [do 2 f_equal; lia|]. split; [done|]. split.
    + destruct c.
      * right. destruct Hcomp as [->|(c0 & -> & Hc0)];
          eexists; (split; [reflexivity|lia]).
      * destruct Hcomp as [->|(c0 & -> & Hc0)]; [now left|].
        right. exists c0. split; [done|lia].
    + intros k d Hk. apply recorded_lookup_sub in Hk.
      specialize (Hsub _ _ Hk). lia.
Qed.

Section RecordPost.

Variable zd : list byte → option (list byte).

(** A record either reaches [dumpSubRecords] with its count and size
    stored, or raises with only its count stored. *)
Lemma record_stats_cases flags data s :
  WF_rec s →
  (∃ c d, record_stats zd flags data s
          = dumpSubRecords d (recorded c (Z.of_nat (length d)) s))
  ∨ (∃ e, (e = StructError ∨ e = ZlibError)
          ∧ record_stats zd flags data s
            = (Raise e,
               <["count"%string := VInt (int_field s "count" + 1)]> s)).
Proof.
  intros H. destruct (decide (Z.land flags 0x00040000 = 0)) as [Hfl|Hfl].
  { left. exists false, data. now apply record_stats_plain. }
  destruct (decide (4 ≤ length data)%nat) as [Hlen|Hlen].
  - destruct (zd (drop 4 data)) as [d|] eqn:Hzd.
    + left. exists true, d. now apply record_stats_compressed.
    + right. exists ZlibError. split; [now right|].
      now apply record_stats_corrupt.
  - right. exists StructError. split; [now left|].
    apply record_stats_short; [done..|lia].
Qed.

Lemma record_stats_post flags data s :
  WF_rec s →
  WF_rec (record_stats zd flags data s).2
  ∧ keys_le s (record_stats zd flags data s).2
  ∧ allowed_exn (record_stats zd flags data s).1
  ∧ (record_stats zd flags data s).1 ≠ Fuel
  ∧ ((record_stats zd flags data s).1 = Ok tt →
     s = ∅ ∨ Inv_rec s → Inv_rec (record_stats zd flags data s).2).
Proof.
  intros H.
  destruct (record_stats_cases flags data s H)
    as [(c & d & ->)|(e & He & ->)].
  - destruct (dumpSubRecords_post d (recorded c (Z.of_nat (length d)) s))
      as (H1 & H2 & H3 & H4 & _ & H5); [now apply recorded_WF|].
    split; [done|].
    split; [eapply keys_le_trans; [apply keys_le_recorded|done]|].
    split; [done|]. split; [done|].
    intros Hok Hinv. apply Inv_rec_at, H5; [done|].
    apply recorded_Inv. rewrite <- Inv_rec_at. exact Hinv.
  - cbn [fst snd]. split; [apply WF_rec_insert; [done|now left]|].
    split; [apply keys_le_insert|]. split; [simpl; tauto|].
    split; discriminate.
Qed.

(** The statistics part of a record satisfies the step guarantee. *)
Lemma dumpRecordData_post Type_ dataSize flags w :
  walk_post w (dumpRecordData zd Type_ dataSize flags w).1
              (dumpRecordData zd Type_ dataSize flags w).2.
Proof.
  intros HWF. rewrite dumpRecordData_eq by done. cbn [fst snd ins stats].
  pose proof (WF_stats_default _ Type_ HWF) as HWF0.
  destruct (record_stats_post flags (file_read dataSize (ins w)).1 _ HWF0)
    as (H1 & H2 & H3 & H4 & H5).
  set (r := record_stats _ _ _ _) in *.
  split; [|split; [|split; [|split]]].
  - intros T s. destruct (decide (Type_ = T)) as [<-|Hne].
    + rewrite lookup_insert_eq. now intros [= <-].
    + rewrite lookup_insert_ne by done. apply HWF.
  - reflexivity.
  - intros T s Hs. destruct (decide (Type_ = T)) as [<-|Hne].
    + rewrite lookup_insert_eq. eexists. split; [done|].
      now rewrite Hs in H2.
    + rewrite lookup_insert_ne by done. exists s. split; [done|].
      apply keys_le_refl.
  - left. exact H3.
  - intros Hok Hinv T s. destruct (decide (Type_ = T)) as [<-|Hne].
    + rewrite lookup_insert_eq. intros [= <-]. split; [done|].
      apply H5; [done|].
      destruct (stats w !! Type_) as [s0|] eqn:Hs0; [right|now left].
      now apply (Hinv _ _ Hs0).
    + rewrite lookup_insert_ne by done. apply Hinv.
Qed.

End RecordPost.

(** ** A proof rule for the walk

    Whatever holds of a step that only moves the cursor, of the
    statistics part of a record, and composes along normal returns,
    holds of every call of [dumpGRUPOrRecord] and of every loop. *)

Section WalkRule.

Variable zd : list byte → option (list byte).
Variable Post : World → res unit → World → Prop.

Hypothesis Post_moved : ∀ w q r, header_result r → Post w r (at_ q w).
Hypothesis Post_fuel : ∀ w, Post w Fuel w.
Hypothesis Post_trans : ∀ w w1 w2 r,
  Post w (Ok tt) w1 → Post w1 r w2 → Post w r w2.
Hypothesis Post_record : ∀ w Type_ dataSize flags,
  Post w (dumpRecordData zd Type_ dataSize flags w).1
         (dumpRecordData zd Type_ dataSize flags w).2.

Lemma Post_refl w : Post w (Ok tt) w.
Proof.
  rewrite <- (at_position w) at 2. apply Post_moved. now left.
Qed.

Lemma while_rule fuel limit body :
  (∀ w, Post w (body w).1 (body w).2) →
  ∀ w, Post w (while_tell_lt fuel limit body w).1
              (while_tell_lt fuel limit body w).2.
Proof.
  intros Hbody. induction fuel as [|fuel IH]; intros w.
  - apply Post_fuel.
  - cbn [while_tell_lt]. rewrite on_file_tell.
    destruct (position (ins w) <? limit); [|apply Post_refl].
    unfold bind. specialize (Hbody w).
    destruct (body w) as [[[]|e|] w1]; cbn [fst snd] in *.
    + eapply Post_trans; [exact Hbody|apply IH].
    + exact Hbody.
    + exact Hbody.
Qed.

Lemma record_rule q Type_ dataSize flags p w :
  let m := (if Z.land flags 0x20 =? 0
            then dumpRecordData zd Type_ dataSize flags else ret tt) ;;;
           on_file (seek p) in
  Post w (m (at_ q w)).1 (m (at_ q w)).2.
Proof.
  cbn zeta.
  apply Post_trans with (at_ q w); [apply Post_moved; now left|].
  unfold bind. destruct (Z.land flags 32 =? 0).
  - pose proof (Post_record (at_ q w) Type_ dataSize flags) as Hrec.
    destruct (dumpRecordData zd Type_ dataSize flags (at_ q w))
      as [[[]|e|] w1]; cbn [fst snd] in *; [|exact Hrec..].
    eapply Post_trans; [exact Hrec|].
    destruct (seek_shape p w1) as (q' & r & Hr & ->).
    now apply Post_moved.
  - cbn [ret]. destruct (seek_shape p (at_ q w)) as (q' & r & Hr & ->).
    now apply Post_moved.
Qed.

Lemma dump_rule depth : ∀ end_ w,
  Post w (dumpGRUPOrRecord zd depth end_ w).1
         (dumpGRUPOrRecord zd depth end_ w).2.
Proof.
  induction depth as [|depth IH]; intros end_ w.
  - destruct (dump_shape zd 0 end_ w)
      as [(q & r & Hr & ->)|[(d' & q & limit & n & Hd & _)
         |(q & Type_ & dataSize & flags & p & ->)]];
      [now apply Post_moved|discriminate|apply record_rule].
  - destruct (dump_shape zd (S depth) end_ w)
      as [(q & r & Hr & ->)|[(d' & q & limit & n & Hd & ->)
         |(q & Type_ & dataSize & flags & p & ->)]];
      [now apply Post_moved| |apply record_rule].
    injection Hd as <-.
    apply Post_trans with (at_ q w); [apply Post_moved; now left|].
    apply while_rule. intros w'. apply IH.
Qed.

End WalkRule.

(** ** The step guarantee along the walk *)

Lemma keys_kept_refl st : keys_kept st st.
Proof. intros T s Hs. exists s. split; [done|apply keys_le_refl]. Qed.

Lemma keys_kept_trans st1 st2 st3 :
  keys_kept st1 st2 → keys_kept st2 st3 → keys_kept st1 st3.
Proof.
  intros H1 H2 T s Hs. destruct (H1 _ _ Hs) as (s' & Hs' & Hle).
  destruct (H2 _ _ Hs') as (s'' & Hs'' & Hle').
  exists s''. split; [done|]. now apply keys_le_trans with s'.
Qed.

Lemma walk_post_moved w q r : header_result r → walk_post w r (at_ q w).
Proof.
  intros Hr HWF. cbn [at_ stats ins set_position content].
  split; [done|]. split; [done|]. split; [apply keys_kept_refl|].
  destruct Hr as [->|[->|[->|[->| ->]]]].
  - split; [now left|done].
  - split; [left; simpl; tauto|discriminate].
  - split; [left; simpl; tauto|discriminate].
  - split; [now right; left|discriminate].
  - split; [now right; right|discriminate].
Qed.

Lemma walk_post_fuel w : walk_post w Fuel w.
Proof.
  intros HWF. split; [done|]. split; [done|].
  split; [apply keys_kept_refl|]. split; [now left|discriminate].
Qed.

Lemma walk_post_trans w w1 w2 r :
  walk_post w (Ok tt) w1 → walk_post w1 r w2 → walk_post w r w2.
Proof.
  intros H1 H2 HWF.
  destruct (H1 HWF) as (HWF1 & Hc1 & Hk1 & _ & Hi1).
  destruct (H2 HWF1) as (HWF2 & Hc2 & Hk2 & He2 & Hi2).
  split; [done|]. split; [congruence|].
  split; [now apply keys_kept_trans with (stats w1)|].
  split; [done|]. auto.
Qed.

Section WalkPost.

Variable zd : list byte → option (list byte).

Lemma dump_post depth end_ w :
  walk_post w (dumpGRUPOrRecord zd depth end_ w).1
              (dumpGRUPOrRecord zd depth end_ w).2.
Proof.
  apply dump_rule.
  - apply walk_post_moved.
  - apply walk_post_fuel.
  - apply walk_post_trans.
  - intros w' Type_ dataSize flags. apply dumpRecordData_post.
Qed.

Lemma while_post fuel limit depth end_ w :
  let body := dumpGRUPOrRecord zd depth end_ in
  walk_post w (while_tell_lt fuel limit body w).1
              (while_tell_lt fuel limit body w).2.
Proof.
  intros body. apply while_rule.
  - apply walk_post_moved.
  - apply walk_post_fuel.
  - apply walk_post_trans.
  - intros w'. apply dump_post.
Qed.

End WalkPost.

(** ** The walk terminates *)

Section Progress.

Variable zd : list byte → option (list byte).

(** A record tag that is not ASCII: the exception leaves the cursor
    after the four bytes read. *)
Lemma dump_bad_tag depth end_ w e :
  header_available (ins w) → position (ins w) + 24 ≤ end_ →
  tag_at (ins w) ≠ GRUP →
  decode_ascii (tag_at (ins w)) = Raise e →
  dumpGRUPOrRecord zd depth end_ w
  = (Raise e, at_ (position (ins w) + 4) w).
Proof.
  destruct w as [[c p] st]. unfold header_available, tag_at, bytes_at,
    file_size, at_, set_position. cbn [ins content position stats].
  replace (p + 0) with p by lia.
  intros [Hp Hlen] Hend Htag Hdec.
  destruct depth; cbn [dumpGRUPOrRecord]; rewrite on_file_tell;
    cbn [ins position];
    (destruct (Z.gtb_spec (p + 24) end_); [lia|]);
    (erewrite on_file_bind_ok by (apply read_at; lia));
    rewrite decide_False by done;
    rewrite bind_lift; now rewrite Hdec.
Qed.

(** With no room left for a call, a header that lies in the region is
    not read beyond its tag: the first reader raises [RecursionError],
    unless the tag of a record cannot be decoded. *)
Lemma dump_no_room end_ w :
  header_available (ins w) → position (ins w) + 24 ≤ end_ →
  ∃ e, (e = RecursionError ∨ e = UnicodeDecodeError)
       ∧ dumpGRUPOrRecord zd 0 end_ w
         = (Raise e, at_ (position (ins w) + 4) w).
Proof.
  destruct w as [[c p] st]. unfold header_available, file_size, at_,
    set_position. cbn [ins content position stats].
  intros [Hp Hlen] Hend.
  cbn [dumpGRUPOrRecord]. rewrite on_file_tell. cbn [ins position].
  destruct (Z.gtb_spec (p + 24) end_); [lia|].
  erewrite on_file_bind_ok by (apply read_at; lia).
  destruct (decide (slice c p (p + 4) = GRUP)) as [_|_].
  - exists RecursionError. split; [now left|reflexivity].
  - rewrite bind_lift. unfold decode_ascii.
    destruct (forallb _ _).
    + exists RecursionError. split; [now left|reflexivity].
    + exists UnicodeDecodeError. split; [now right|reflexivity].
Qed.

Lemma decode_ascii_no_fuel b : decode_ascii b ≠ Fuel.
Proof. unfold decode_ascii. now destruct (forallb _ b). Qed.

Lemma dumpRecordData_result Type_ dataSize flags w :
  WF_stats (stats w) →
  walk_result (dumpRecordData zd Type_ dataSize flags w).1.
Proof.
  intros HWF. rewrite dumpRecordData_eq by done. cbn [fst].
  destruct (record_stats_post zd flags (file_read dataSize (ins w)).1
              (default ∅ (stats w !! Type_)))
    as (_ & _ & H3 & H4 & _); [now apply WF_stats_default|].
  split; [done|now left].
Qed.

Lemma walk_result_ok : walk_result (Ok tt).
Proof. split; [discriminate|left; exact I]. Qed.

Lemma u32_at_nonneg f off : 0 ≤ u32_at f off.
Proof. unfold u32_at. apply le_value_range. Qed.

Lemma walking_after end_ w r w' :
  walking end_ w → walk_post w r w' →
  position (ins w) ≤ position (ins w') → walking end_ w'.
Proof.
  intros (HWF & Hp & He) Hpost Hle.
  destruct (Hpost HWF) as (HWF' & Hc & _).
  split; [done|]. split; [lia|]. unfold file_size in *. now rewrite Hc.
Qed.

(** A loop whose body moves the cursor forward ends within as many
    iterations as there are bytes before its limit. *)
Lemma while_progress depth limit loop_budget : ∀ w,
  (∀ w', walking limit w' → position (ins w') < limit →
         walk_result (dumpGRUPOrRecord zd depth limit w').1
         ∧ ((dumpGRUPOrRecord zd depth limit w').1 = Ok tt →
            position (ins w')
            < position (ins (dumpGRUPOrRecord zd depth limit w').2))) →
  walking limit w →
  0 < Z.of_nat loop_budget →
  limit - position (ins w) < Z.of_nat loop_budget →
  let out := while_tell_lt loop_budget limit
               (dumpGRUPOrRecord zd depth limit) w in
  walk_result out.1
  ∧ (out.1 = Ok tt → position (ins w) ≤ position (ins out.2)).
Proof.
  intros w Hbody. revert w.
  induction loop_budget as [|n IH]; intros w Hw Hpos Hf; [lia|].
  cbn zeta. cbn [while_tell_lt]. rewrite on_file_tell.
  destruct (Z.ltb_spec (position (ins w)) limit) as [Hlt|Hge].
  2: { cbn [ret fst snd]. split; [apply walk_result_ok|lia]. }
  destruct (Hbody w Hw Hlt) as [Hres Hadv].
  pose proof (dump_post zd depth limit w) as Hpost.
  unfold bind.
  destruct (dumpGRUPOrRecord zd depth limit w) as [[[]|e|] w1];
    cbn [fst snd] in *; [|split; [exact Hres|discriminate]|now destruct Hres].
  specialize (Hadv eq_refl).
  assert (walking limit w1) as Hw1
      by (eapply walking_after; [exact Hw|exact Hpost|lia]).
  destruct (IH w1 Hw1 ltac:(lia) ltac:(lia)) as [H1 H2].
  split; [exact H1|]. intros Hok. specialize (H2 Hok). lia.
Qed.

(** A call in a region of the file returns or raises one of the
    exceptions of a walk, and a call that returns has moved the cursor
    forward. *)
Lemma dump_progress depth : ∀ end_ w,
  walking end_ w → position (ins w) < end_ →
  walk_result (dumpGRUPOrRecord zd depth end_ w).1
  ∧ ((dumpGRUPOrRecord zd depth end_ w).1 = Ok tt →
     position (ins w) < position (ins (dumpGRUPOrRecord zd depth end_ w).2)).
Proof.
  induction depth as [|depth IH]; intros end_ w Hw Hlt;
    destruct Hw as (HWF & Hp & Hend);
    (destruct (decide (position (ins w) + 24 > end_)) as [Hpad|Hhdr];
     [rewrite dump_padding by (done || lia);
      cbn [fst snd ins position set_position];
      split; [apply walk_result_ok|lia]|]);
    assert (header_available (ins w)) as Hav by (split; lia).
  { destruct (dump_no_room end_ w Hav ltac:(lia)) as (e & He & ->).
    cbn [fst snd]. split; [|discriminate]. split; [discriminate|].
    destruct He as [-> | ->]; [now right|left; simpl; tauto]. }
  destruct (decide (tag_at (ins w) = GRUP)) as [Htag|Htag].
  - rewrite dump_group by (done || lia). cbn zeta.
    set (limit := position (ins w) + 24 + (u32_at (ins w) 4 - 24)).
    destruct (Z.gtb_spec limit end_) as [Hover|Hin].
    { rewrite on_file_seek by lia. cbn [fst snd ins position set_position].
      split; [apply walk_result_ok|lia]. }
    set (w0 := mkWorld (set_position (position (ins w) + 24) (ins w))
                 (stats w)).
    assert (walking limit w0) as Hw0.
    { split; [done|]. split; simpl; [lia|]. unfold file_size in *.
      simpl. lia. }
    destruct (while_progress depth limit (loop_fuel (u32_at (ins w) 4 - 24))
                w0) as [H1 H2];
      [intros w' Hw' Hlt'; now apply IH|done
      |unfold loop_fuel; lia
      |unfold loop_fuel, limit, w0; cbn [ins position set_position]; lia|].
    split; [exact H1|]. intros Hok. specialize (H2 Hok).
    change (position (ins w0)) with (position (ins w) + 24) in H2. lia.
  - destruct (decode_ascii (tag_at (ins w))) as [Type_|e|] eqn:Hdec.
    + rewrite (dump_record zd depth end_ w Type_) by (done || lia).
      pose proof (u32_at_nonneg (ins w) 4) as Hds.
      set (w0 := mkWorld (set_position (position (ins w) + 24) (ins w))
                   (stats w)).
      unfold bind. destruct (Z.land (u32_at (ins w) 8) 32 =? 0).
      * pose proof (dumpRecordData_result Type_ (u32_at (ins w) 4)
                      (u32_at (ins w) 8) w0 HWF) as Hres.
        destruct (dumpRecordData zd Type_ _ _ w0) as [[[]|e|] w1];
          cbn [fst snd] in *;
          [|split; [exact Hres|discriminate]|now destruct Hres].
        rewrite on_file_seek by lia.
        cbn [fst snd ins position set_position].
        split; [apply walk_result_ok|lia].
      * cbn [ret]. rewrite on_file_seek by lia.
        cbn [fst snd ins position set_position].
        split; [apply walk_result_ok|lia].
    + rewrite (dump_bad_tag (S depth) end_ w e) by (done || lia).
      cbn [fst snd]. split; [|discriminate]. split; [discriminate|].
      unfold decode_ascii in Hdec. destruct (forallb _ _); [discriminate|].
      injection Hdec as <-. left. simpl. tauto.
    + now apply decode_ascii_no_fuel in Hdec.
Qed.

(** The walk of a plugin returns, or raises one of the exceptions of a
    walk; it never exhausts the budget of its loops. *)
Lemma dumpPlugin_result depth c : walk_result (dumpPlugin zd depth c).1.
Proof.
  unfold dumpPlugin, walk_fuel. cbn zeta.
  apply (while_progress depth (Z.of_nat (length c))
           (S (length c)) (mkWorld (mkFile c 0) ∅)).
  - intros w' Hw' Hlt. now apply dump_progress.
  - split; [|split].
    + intros T s Hs. simpl in Hs. now rewrite lookup_empty in Hs.
    + simpl. lia.
    + unfold file_size. simpl. lia.
  - lia.
  - simpl. lia.
Qed.

End Progress.

(** *** What the parse of one record adds to the statistics *)

Lemma fold_append_own_field field tr : ∀ s k,
  list_field (sub_dict (fold_left (append_in field) tr s) k) field
  = list_field (sub_dict s k) field ++ sizes_under k tr.
Proof.
  unfold sizes_under.
  induction tr as [|kv tr IH]; intros s k.
  - simpl. now rewrite app_nil_r.
  - cbn [fold_left]. rewrite IH.
    destruct (decide (kv.1 = k)) as [<-|Hne].
    + rewrite filter_cons_True by done. rewrite fmap_cons.
      rewrite append_in_field_eq, <- app_assoc. reflexivity.
    + rewrite filter_cons_False by done.
      now rewrite append_in_field_ne.
Qed.

Lemma counts_get_set c k n k' :
  counts_get (counts_set c k n) k'
  = if decide (k = k') then n else counts_get c k'.
Proof.
  induction c as [|[k0 n0] c IH]; cbn [counts_set counts_get].
  - reflexivity.
  - destruct (decide (k0 = k)) as [->|Hne]; cbn [counts_get].
    + destruct (decide (k = k')); reflexivity.
    + rewrite IH. destruct (decide (k0 = k')) as [->|Hne'].
      * rewrite decide_False by congruence. reflexivity.
      * reflexivity.
Qed.

Lemma counts_get_count_all tr : ∀ c k,
  counts_get (count_all tr c) k = counts_get c k + occurrences k tr.
Proof.
  unfold count_all, occurrences.
  induction tr as [|kv tr IH]; intros c k.
  - simpl. lia.
  - cbn [fold_left]. rewrite IH, counts_get_set.
    destruct (decide (kv.1 = k)) as [<-|Hne].
    + rewrite filter_cons_True by done. cbn [length]. lia.
    + rewrite filter_cons_False by done. lia.
Qed.

Lemma counts_set_key_in c k n : k ∈ (counts_set c k n).*1.
Proof.
  rewrite counts_set_keys. case_decide; [done|].
  apply elem_of_app. right. apply list_elem_of_singleton. reflexivity.
Qed.

Lemma counts_set_keys_mono c k n k' :
  k' ∈ c.*1 → k' ∈ (counts_set c k n).*1.
Proof.
  intros H. rewrite counts_set_keys. case_decide; [done|].
  apply elem_of_app. now left.
Qed.

Lemma count_all_keys_mono tr : ∀ c k,
  k ∈ c.*1 → k ∈ (count_all tr c).*1.
Proof.
  unfold count_all. induction tr as [|kv tr IH]; intros c k H; [done|].
  cbn [fold_left]. now apply IH, counts_set_keys_mono.
Qed.

Lemma count_all_keys_in tr : ∀ c k,
  k ∈ tr.*1 → k ∈ (count_all tr c).*1.
Proof.
  induction tr as [|kv tr IH]; intros c k H.
  - now apply elem_of_nil in H.
  - rewrite fmap_cons in H. apply elem_of_cons in H as [->|H].
    + unfold count_all. cbn [fold_left].
      apply (count_all_keys_mono tr). apply counts_set_key_in.
    + unfold count_all. cbn [fold_left]. now apply IH.
Qed.

(** With distinct keys, at most the entry of [k] is under [k]. *)
Lemma sizes_under_NoDup (cs : list (string * Z)) k :
  NoDup cs.*1 →
  sizes_under k cs = if decide (k ∈ cs.*1) then [counts_get cs k] else [].
Proof.
  unfold sizes_under.
  induction cs as [|[k0 n0] cs IH]; intros Hnd.
  - rewrite decide_False; [done|]. apply not_elem_of_nil.
  - rewrite fmap_cons in Hnd. apply NoDup_cons in Hnd as [Hnotin Hnd].
    cbn [fst] in Hnotin. cbn [counts_get].
    destruct (decide (k0 = k)) as [->|Hne].
    + rewrite filter_cons_True by done.
      rewrite fmap_cons. cbn [snd]. rewrite (IH Hnd).
      rewrite decide_False by done.
      rewrite decide_True; [done|]. rewrite fmap_cons. left.
    + rewrite filter_cons_False by done. rewrite (IH Hnd).
      rewrite fmap_cons. cbn [fst].
      destruct (decide (k ∈ cs.*1)) as [Hin|Hout].
      * rewrite decide_True; [done|]. now right.
      * rewrite decide_False; [done|].
        rewrite not_elem_of_cons. split; [congruence|done].
Qed.

(** ** Completeness along the walk *)

Lemma sizes_under_in k (tr : list (string * Z)) :
  k ∈ tr.*1 → sizes_under k tr ≠ [].
Proof.
  unfold sizes_under. induction tr as [|kv tr IH]; intros Hin.
  - now apply elem_of_nil in Hin.
  - destruct (decide (kv.1 = k)) as [Heq|Hne].
    + now rewrite filter_cons_True.
    + rewrite filter_cons_False by done. apply IH.
      rewrite fmap_cons in Hin. apply elem_of_cons in Hin as [->|Hin]; done.
Qed.

Lemma dumpSubRecords_complete data s :
  WF_rec s → (dumpSubRecords data s).1 = Ok tt →
  complete_rec s → complete_rec (dumpSubRecords data s).2.
Proof.
  intros HWF Hok [Hsz Hsub].
  destruct (dumpSubRecords_post data s HWF) as (_ & _ & _ & _ & Hlong & _).
  split.
  { unfold sizes_of in *. now rewrite Hlong by (simpl; lia). }
  revert Hok. rewrite dumpSubRecords_spec by now apply WF_rec_keys_ok.
  set (tr := (subrecords data).1).
  destruct (subrecords data).2 as [[]|e|]; cbn [fst snd]; [|discriminate..].
  intros _ k d Hk.
  destruct (decide (k ∈ tr.*1)) as [Hin|Hout].
  - assert (d = sub_dict
                  (fold_left (append_in "counts") (count_all tr [])
                     (fold_left (append_in "sizes") tr s)) k) as ->
        by (unfold sub_dict; now rewrite Hk).
    split.
    + rewrite fold_append_own_field. intros Happ.
      apply app_eq_nil in Happ as [_ Happ]. revert Happ.
      now apply sizes_under_in, count_all_keys_in.
    + rewrite fold_append_field by done. rewrite fold_append_own_field.
      intros Happ. apply app_eq_nil in Happ as [_ Happ]. revert Happ.
      now apply sizes_under_in.
  - assert (k ∉ (count_all tr []).*1) as Hout'.
    { intros Hin. apply count_all_keys in Hin as [Hin|Hin]; [|done].
      now apply elem_of_nil in Hin. }
    rewrite (fold_append_other "counts" _ _ k Hout') in Hk.
    rewrite (fold_append_other "sizes" _ _ k Hout) in Hk.
    now apply (Hsub k d).
Qed.

Lemma recorded_complete c n s :
  s = ∅ ∨ complete_rec s → complete_rec (recorded c n s).
Proof.
  intros H. split.
  - unfold sizes_of at 1. rewrite recorded_sizes.
    intros Happ. now apply app_eq_nil in Happ as [_ ?].
  - intros k d Hk. apply recorded_lookup_sub in Hk.
    destruct H as [->|[_ Hsub]]; [now rewrite lookup_empty in Hk|].
    now apply (Hsub k d).
Qed.

Section ReportPost.

Variable zd : list byte → option (list byte).

Lemma record_stats_complete flags data s :
  WF_rec s → (record_stats zd flags data s).1 = Ok tt →
  s = ∅ ∨ complete_rec s → complete_rec (record_stats zd flags data s).2.
Proof.
  intros HWF Hok Hc.
  destruct (record_stats_cases zd flags data s HWF)
    as [(c & d & E)|(e & He & E)]; rewrite E in *; [|discriminate].
  apply dumpSubRecords_complete; [now apply recorded_WF|done|].
  now apply recorded_complete.
Qed.

Lemma dumpRecordData_report_post Type_ dataSize flags w :
  report_post w (dumpRecordData zd Type_ dataSize flags w).1
                (dumpRecordData zd Type_ dataSize flags w).2.
Proof.
  split; [apply dumpRecordData_post|].
  intros HWF. rewrite dumpRecordData_eq by done. cbn [fst snd ins stats].
  intros Hok Hc T s.
  pose proof (WF_stats_default _ Type_ HWF) as HWF0.
  destruct (decide (Type_ = T)) as [<-|Hne].
  - rewrite lookup_insert_eq. intros [= <-].
    apply record_stats_complete; [done..|].
    destruct (stats w !! Type_) as [s0|] eqn:Hs0; [right|now left].
    now apply (Hc _ _ Hs0).
  - rewrite lookup_insert_ne by done. apply Hc.
Qed.

Lemma report_post_moved w q r : header_result r → report_post w r (at_ q w).
Proof. intros Hr. split; [now apply walk_post_moved|]. auto. Qed.

Lemma report_post_fuel w : report_post w Fuel w.
Proof. split; [apply walk_post_fuel|]. auto. Qed.

Lemma report_post_trans w w1 w2 r :
  report_post w (Ok tt) w1 → report_post w1 r w2 → report_post w r w2.
Proof.
  intros [H1 C1] [H2 C2]. split; [now apply walk_post_trans with w1|].
  intros HWF Hr Hc. destruct (H1 HWF) as (HWF1 & _). auto.
Qed.

Lemma dump_report_post depth end_ w :
  report_post w (dumpGRUPOrRecord zd depth end_ w).1
                (dumpGRUPOrRecord zd depth end_ w).2.
Proof.
  apply dump_rule.
  - apply report_post_moved.
  - apply report_post_fuel.
  - apply report_post_trans.
  - intros w' Type_ dataSize flags. apply dumpRecordData_report_post.
Qed.

Lemma while_report_post fuel limit depth end_ w :
  let body := dumpGRUPOrRecord zd depth end_ in
  report_post w (while_tell_lt fuel limit body w).1
                (while_tell_lt fuel limit body w).2.
Proof.
  intros body. apply while_rule.
  - apply report_post_moved.
  - apply report_post_fuel.
  - apply report_post_trans.
  - intros w'. apply dump_report_post.
Qed.

End ReportPost.

Lemma complete_empty : complete ∅.
Proof. intros T s Hs. now rewrite lookup_empty in Hs. Qed.

(** A subrecord type met by the parse has its dictionary from then on,
    with the sizes met, also when the parse raises later. *)
Lemma dumpSubRecords_entry data s k :
  WF_rec s → k ∈ (subrecords data).1.*1 →
  ∃ d, (dumpSubRecords data s).2 !! k = Some (VDict d)
       ∧ list_field d "sizes"
         = list_field (sub_dict s k) "sizes"
           ++ sizes_under k (subrecords data).1.
Proof.
  intros HWF Hin.
  rewrite dumpSubRecords_spec by now apply WF_rec_keys_ok.
  set (tr := (subrecords data).1) in *.
  destruct (fold_append_key_is_dict "sizes" tr s k Hin) as [d1 Hd1].
  assert (∃ d, (match (subrecords data).2 with
                | Ok _ => (Ok tt, fold_left (append_in "counts")
                                    (count_all tr [])
                                    (fold_left (append_in "sizes") tr s))
                | Raise e => (Raise e, fold_left (append_in "sizes") tr s)
                | Fuel => (Fuel, fold_left (append_in "sizes") tr s)
                end).2 !! k = Some (VDict d)) as [d Hd].
  { destruct (subrecords data).2 as [[]|e|]; cbn [snd]; [|eauto..].
    apply fold_append_is_dict. eauto. }
  exists d. split; [exact Hd|].
  assert (d = sub_dict (match (subrecords data).2 with
                        | Ok _ => (Ok tt, fold_left (append_in "counts")
                                            (count_all tr [])
                                            (fold_left (append_in "sizes") tr s))
                        | Raise e =>
                            (Raise e, fold_left (append_in "sizes") tr s)
                        | Fuel => (Fuel, fold_left (append_in "sizes") tr s)
                        end).2 k) as ->
      by (unfold sub_dict; now rewrite Hd).
  destruct (subrecords data).2 as [[]|e|]; cbn [snd];
    rewrite ?fold_append_field by done; apply fold_append_own_field.
Qed.

(** ** Records that are not deleted *)


Lemma record_data_length f :
  header_available f →
  Z.of_nat (length (record_data f))
  = Z.min (Z.min (u32_at f 4) READ_MAX) (remaining f - 24).
Proof.
  intros [Hp Hlen]. pose proof (le_value_range (bytes_at f 4 4)) as Hds.
  unfold record_data, u32_at, bytes_at, slice, remaining, file_size in *.
  rewrite length_take, length_drop. lia.
Qed.

Section Records.

Variable zd : list byte → option (list byte).

(** A record that is not deleted, whether or not its data lie wholly
    in the file: the outcome is that of [record_stats] on the bytes
    that were read, and the cursor is put after the declared length
    only when that returns. *)
Lemma dump_live_record depth end_ w Type_ :
  WF_stats (stats w) →
  header_available (ins w) → position (ins w) + 24 ≤ end_ →
  tag_at (ins w) ≠ GRUP →
  decode_ascii (tag_at (ins w)) = Ok Type_ →
  Z.land (u32_at (ins w) 8) 0x20 = 0 →
  let data := record_data (ins w) in
  let out := record_stats zd (u32_at (ins w) 8) data
               (default ∅ (stats w !! Type_)) in
  let cursor :=
    match out.1 with
    | Ok _ => position (ins w) + 24 + u32_at (ins w) 4
    | _ => position (ins w) + 24 + Z.of_nat (length data)
    end in
  dumpGRUPOrRecord zd (S depth) end_ w
  = (out.1, mkWorld (set_position cursor (ins w))
                    (<[Type_ := out.2]> (stats w))).
Proof.
  intros HWF Hav Hend Htag Hdec Hdel. cbn zeta.
  pose proof (u32_at_nonneg (ins w) 4) as Hds.
  rewrite (dump_record zd depth end_ w Type_) by done.
  rewrite Hdel. cbn [Z.eqb]. unfold bind.
  rewrite dumpRecordData_eq by done. cbn [ins stats fst snd].
  rewrite file_read_bytes by done.
  assert (bytes_at (set_position (position (ins w) + 24) (ins w)) 0
            (Z.min (u32_at (ins w) 4) READ_MAX)
          = record_data (ins w)) as ->.
  { unfold record_data, bytes_at, set_position. cbn [content position].
    f_equal; lia. }
  cbn [fst snd]. destruct Hav as [Hp _].
  destruct (record_stats zd _ _ _) as [[[]|e|] s']; cbn [fst snd].
  - rewrite on_file_seek by lia. unfold set_position.
    cbn [ins stats content position].
    replace (position (ins w) + u32_at (ins w) 4 + 24)
      with (position (ins w) + 24 + u32_at (ins w) 4) by lia.
    reflexivity.
  - reflexivity.
  - reflexivity.
Qed.

(** A record whose deleted flag is set. *)
Lemma dump_deleted_record depth end_ w Type_ :
  header_available (ins w) → position (ins w) + 24 ≤ end_ →
  tag_at (ins w) ≠ GRUP →
  decode_ascii (tag_at (ins w)) = Ok Type_ →
  Z.land (u32_at (ins w) 8) 0x20 ≠ 0 →
  dumpGRUPOrRecord zd (S depth) end_ w
  = (Ok tt, at_ (position (ins w) + 24 + u32_at (ins w) 4) w).
Proof.
  intros Hav Hend Htag Hdec Hdel.
  rewrite (dump_record zd depth end_ w Type_) by done.
  destruct (Z.eqb_spec (Z.land (u32_at (ins w) 8) 32) 0); [done|].
  unfold bind, ret.
  rewrite on_file_seek
    by (pose proof (u32_at_nonneg (ins w) 4); destruct Hav; lia).
  unfold at_, set_position. cbn [ins stats content].
  replace (position (ins w) + u32_at (ins w) 4 + 24)
    with (position (ins w) + 24 + u32_at (ins w) 4) by lia.
  reflexivity.
Qed.

End Records.

(** * The claims *)

(** ** Byte cursor *)






(** ** Records *)

(** C6: a record whose deleted flag (0x20) is set, whatever its other
    flags (the compressed flag 0x00040000 included), leaves the
    statistics exactly as they were -- no entry is created or changed --
    and the cursor ends past its header and its [dataSize] bytes of
    data. The record's tag is a type tag, hence ASCII. *)
Theorem deleted_record_skipped (zd : list byte → option (list byte))
    (depth : nat) (end_ : Z) (w : World) :
  header_available (ins w) → position (ins w) + 24 ≤ end_ →
  tag_at (ins w) ≠ GRUP → is_ascii (tag_at (ins w)) →
  Z.land (u32_at (ins w) 8) 0x20 ≠ 0 →
  dumpGRUPOrRecord zd (S depth) end_ w
  = (Ok tt,
     mkWorld (set_position (position (ins w) + 24 + u32_at (ins w) 4) (ins w))
             (stats w)).
Proof.
  intros Hav Hend Htag Hascii Hdel.
  rewrite (dump_record zd depth end_ w _ Hav Hend Htag
             (decode_ascii_ok _ Hascii)).
  destruct (Z.eqb_spec (Z.land (u32_at (ins w) 8) 32) 0); [done|].
  unfold bind, ret.
  rewrite on_file_seek
    by (pose proof (u32_at_nonneg (ins w) 4); destruct Hav; lia).
  unfold set_position. cbn [ins stats content].
  replace (position (ins w) + u32_at (ins w) 4 + 24)
    with (position (ins w) + 24 + u32_at (ins w) 4) by lia.
  reflexivity.
Qed.

Lemma deleted_record_skipped_witness :
  let w := start sample_deleted in
  dumpGRUPOrRecord inflate_stored 1 34 w
  = (Ok tt,
     mkWorld (set_position (position (ins w) + 24 + u32_at (ins w) 4) (ins w))
             (stats w)).
Proof.
  apply (deleted_record_skipped inflate_stored 0 34 (start sample_deleted)).
  - split; vm_compute; discriminate.
  - vm_compute. discriminate.
  - vm_compute. discriminate.
  - apply Forall_forall. vm_compute. intros x Hx.
    repeat (apply elem_of_cons in Hx as [->|Hx]; [reflexivity|]).
    now apply elem_of_nil in Hx.
  - vm_compute. discriminate.
Defined.

(** C2, as stated, fails: a compressed record that declares 100
    bytes of data, of which the file holds 6 that do not inflate, makes
    the call raise with the cursor after the bytes read, on 30, and not
    on [postHeaderPosition + dataSize], which is 124: the seek that ends
    the call is not reached. *)
Lemma record_cursor_counterexample :
  let w := start sample_cut in
  let out := dumpGRUPOrRecord inflate_stored 1 30 w in
  out.1 = Raise ZlibError
  ∧ position (ins out.2) = 30
  ∧ position (ins w) + 24 + u32_at (ins w) 4 = 124
  ∧ position (ins out.2) ≠ position (ins w) + 24 + u32_at (ins w) 4.
Proof. vm_compute. repeat split; (reflexivity || discriminate). Qed.

(** C2 (amended): a call on a record returns or raises one of
    [struct.error], the error of [decode] and [zlib.error]. When it
    returns, whatever the deleted and compressed flags, the cursor is on
    [postHeaderPosition + dataSize], with [dataSize] the length declared
    in the header (never the length of the inflated payload); a deleted
    record always returns. When the payload makes the call raise, the
    seek that ends the call is skipped and the cursor is left after the
    bytes that were read: [postHeaderPosition] plus the least of
    [dataSize], the bytes left in the file and [READ_MAX]. A tag that
    is not ASCII raises with the cursor 4 bytes after the start of the
    record. *)
Theorem record_cursor (zd : list byte → option (list byte))
    (depth : nat) (end_ : Z) (w : World) :
  WF_stats (stats w) →
  header_available (ins w) → position (ins w) + 24 ≤ end_ →
  tag_at (ins w) ≠ GRUP →
  let out := dumpGRUPOrRecord zd (S depth) end_ w in
  let postHeader := position (ins w) + 24 in
  let dataSize := u32_at (ins w) 4 in
  (out.1 ≠ Fuel ∧ allowed_exn out.1)
  ∧ (out.1 = Ok tt → position (ins out.2) = postHeader + dataSize)
  ∧ (is_ascii (tag_at (ins w)) → Z.land (u32_at (ins w) 8) 0x20 ≠ 0 →
     out.1 = Ok tt)
  ∧ (is_ascii (tag_at (ins w)) → out.1 ≠ Ok tt →
     position (ins out.2)
     = postHeader + Z.min (Z.min dataSize READ_MAX) (remaining (ins w) - 24))
  ∧ (¬ is_ascii (tag_at (ins w)) →
     out = (Raise UnicodeDecodeError, at_ (position (ins w) + 4) w)).
Proof.
  intros HWF Hav Hend Htag. cbn zeta.
  pose proof (u32_at_nonneg (ins w) 4) as Hds.
  pose proof (WF_stats_default _ (string_of_list_byte (tag_at (ins w))) HWF)
    as HWF0.
  destruct (decide (is_ascii (tag_at (ins w)))) as [Hascii|Hbad].
  - pose proof (decode_ascii_ok _ Hascii) as Hdec.
    destruct (decide (Z.land (u32_at (ins w) 8) 0x20 = 0)) as [Hlive|Hdel].
    + rewrite (dump_live_record zd depth end_ w _ HWF Hav Hend Htag Hdec Hlive).
      cbn zeta.
      destruct (record_stats_post zd (u32_at (ins w) 8) (record_data (ins w))
                  _ HWF0) as (_ & _ & Hexn & Hfuel & _).
      cbn [fst snd].
      destruct (record_stats zd _ _ _).1 as [[]|e|] eqn:Hout;
        cbn [ins position set_position].
      * repeat split; (done || intros; lia || tauto).
      * rewrite record_data_length by done.
        repeat split; (done || discriminate || intros; lia || tauto).
      * done.
    + rewrite (dump_deleted_record zd depth end_ w _ Hav Hend Htag Hdec Hdel).
      cbn [fst snd at_ ins position set_position].
      repeat split; (done || intros; lia || tauto).
  - pose proof (decode_ascii_raise _ Hbad) as Hdec.
    rewrite (dump_bad_tag zd (S depth) end_ w _ Hav Hend Htag Hdec).
    cbn [fst snd].
    repeat split; (done || discriminate || tauto || (simpl; tauto)).
Qed.

Lemma record_cursor_witness :
  let w := start sample_cut in
  let out := dumpGRUPOrRecord inflate_stored 1 30 w in
  let postHeader := position (ins w) + 24 in
  let dataSize := u32_at (ins w) 4 in
  (out.1 ≠ Fuel ∧ allowed_exn out.1)
  ∧ (out.1 = Ok tt → position (ins out.2) = postHeader + dataSize)
  ∧ (is_ascii (tag_at (ins w)) → Z.land (u32_at (ins w) 8) 0x20 ≠ 0 →
     out.1 = Ok tt)
  ∧ (is_ascii (tag_at (ins w)) → out.1 ≠ Ok tt →
     position (ins out.2)
     = postHeader + Z.min (Z.min dataSize READ_MAX) (remaining (ins w) - 24))
  ∧ (¬ is_ascii (tag_at (ins w)) →
     out = (Raise UnicodeDecodeError, at_ (position (ins w) + 4) w)).
Proof.
  apply (record_cursor inflate_stored 0 30 (start sample_cut)).
  - intros T s Hs. simpl in Hs. now rewrite lookup_empty in Hs.
  - split; vm_compute; discriminate.
  - vm_compute. discriminate.
  - vm_compute. discriminate.
Defined.

(** ** Groups and padding *)

Lemma slice_take c e a b :
  0 ≤ a → a ≤ b → b ≤ e →
  slice (take (Z.to_nat e) c) a b = slice c a b.
Proof.
  intros Ha Hab Hbe. unfold slice.
  rewrite !take_drop_commute, take_take.
  do 2 f_equal. lia.
Qed.

Lemma same_upto_bytes e f f' off n :
  same_upto e f f' → 0 ≤ position f → 0 ≤ off → 0 ≤ n →
  position f + off + n ≤ e →
  bytes_at f' off n = bytes_at f off n.
Proof.
  intros [Hp Hc] Hpos Hoff Hn He. unfold bytes_at. rewrite <- Hp.
  rewrite <- (slice_take (content f) e) by lia.
  rewrite <- (slice_take (content f') e) by lia.
  now rewrite Hc.
Qed.

Lemma same_upto_size e f f' :
  same_upto e f f' → e ≤ file_size f → e ≤ file_size f'.
Proof.
  intros [_ Hc] He. unfold file_size in *.
  apply (f_equal length) in Hc. rewrite !length_take in Hc. lia.
Qed.

Section Clamp.

Variable zd : list byte → option (list byte).

(** The two ways a call stops at the end of its region. *)
Lemma dump_clamped depth end_ w :
  0 ≤ position (ins w) ≤ end_ → end_ ≤ file_size (ins w) →
  position (ins w) + 24 > end_
  ∨ (tag_at (ins w) = GRUP
     ∧ position (ins w) + 24 + (u32_at (ins w) 4 - 24) > end_) →
  dumpGRUPOrRecord zd (S depth) end_ w = (Ok tt, at_ end_ w).
Proof.
  intros Hp He Hcase.
  destruct (decide (position (ins w) + 24 > end_)) as [Hpad|Hhdr].
  { apply dump_padding; [lia|done]. }
  destruct Hcase as [Hpad|[Htag Hover]]; [done|].
  rewrite dump_group by (done || split; lia). cbn zeta.
  destruct (Z.gtb_spec (position (ins w) + 24 + (u32_at (ins w) 4 - 24))
              end_); [|lia].
  apply on_file_seek. lia.
Qed.

End Clamp.

(** C8: when fewer than 24 bytes remain before the end of the region,
    or when a group declares a payload that would overrun the end of
    its region, the call raises nothing: it puts the cursor on the end
    of the region and returns. Nothing past the end of the region is
    read: the outcome is the same on any file that agrees with this one
    up to the end of the region. The loop over the region, which makes
    this call, then stops normally with the cursor on the end of the
    region; and when the region is the payload of a group, the call on
    that group returns with the cursor on its declared end, so that the
    loop one level out goes on from there, with the next sibling of
    that group. *)
Theorem malformed_group_clamped (zd : list byte → option (list byte))
    (depth : nat) (end_ : Z) (w w' : World) :
  0 ≤ position (ins w) ≤ end_ → end_ ≤ file_size (ins w) →
  same_upto end_ (ins w) (ins w') →
  position (ins w) + 24 > end_
  ∨ (tag_at (ins w) = GRUP
     ∧ position (ins w) + 24 + (u32_at (ins w) 4 - 24) > end_) →
  dumpGRUPOrRecord zd (S depth) end_ w = (Ok tt, at_ end_ w)
  ∧ dumpGRUPOrRecord zd (S depth) end_ w' = (Ok tt, at_ end_ w')
  ∧ (position (ins w) < end_ →
     ∀ n, while_tell_lt (S (S n)) end_ (dumpGRUPOrRecord zd (S depth) end_) w
          = (Ok tt, at_ end_ w))
  ∧ (∀ wp end_out,
       w = at_ (position (ins wp) + 24) wp →
       header_available (ins wp) → tag_at (ins wp) = GRUP →
       position (ins wp) + u32_at (ins wp) 4 = end_ → end_ ≤ end_out →
       dumpGRUPOrRecord zd (S (S depth)) end_out wp = (Ok tt, at_ end_ wp)
       ∧ ∀ n, while_tell_lt (S n) end_out
                (dumpGRUPOrRecord zd (S (S depth)) end_out) wp
              = while_tell_lt n end_out
                  (dumpGRUPOrRecord zd (S (S depth)) end_out) (at_ end_ wp)).
Proof.
  intros Hp He Hsame Hcase.
  pose proof (dump_clamped zd depth end_ w Hp He Hcase) as Hcall.
  assert (position (ins w) < end_ →
          ∀ n, while_tell_lt (S (S n)) end_
                 (dumpGRUPOrRecord zd (S depth) end_) w
               = (Ok tt, at_ end_ w)) as Hloop.
  { intros Hlt n. rewrite (while_step _ _ _ _ _ Hlt Hcall).
    apply while_done. cbn [at_ ins set_position position]. lia. }
  split; [exact Hcall|]. split; [|split; [exact Hloop|]].
  - pose proof (same_upto_size _ _ _ Hsame He) as He'.
    pose proof Hsame as [Hpos _].
    apply dump_clamped; [lia|done|].
    destruct (decide (position (ins w) + 24 > end_)) as [Hpad|Hhdr];
      [left; lia|].
    destruct Hcase as [Hpad|[Htag Hover]]; [done|]. right.
    unfold tag_at, u32_at in *.
    rewrite !(same_upto_bytes end_ (ins w) (ins w')) by (done || lia).
    split; [done|lia].
  - intros wp end_out Hw Hav Htag Hdecl Hout.
    assert (position (ins w) = position (ins wp) + 24) as Hpw
        by (rewrite Hw; reflexivity).
    assert (at_ end_ w = at_ end_ wp) as Hat by (rewrite Hw; reflexivity).
    assert (dumpGRUPOrRecord zd (S (S depth)) end_out wp
            = (Ok tt, at_ end_ wp)) as Hparent.
    { rewrite dump_group by (done || lia). cbn zeta.
      replace (position (ins wp) + 24 + (u32_at (ins wp) 4 - 24))
        with end_ by lia.
      destruct (Z.gtb_spec end_ end_out); [lia|].
      fold (at_ (position (ins wp) + 24) wp). rewrite <- Hw, <- Hat.
      unfold loop_fuel.
      destruct (decide (position (ins w) < end_)) as [Hlt|Hge].
      - destruct (Z.to_nat (u32_at (ins wp) 4 - 24)) as [|n] eqn:Hn; [lia|].
        apply Hloop, Hlt.
      - rewrite while_done by lia. destruct w as [[c q] st].
        unfold at_, set_position. cbn [ins stats content position] in *.
        do 3 f_equal. lia. }
    split; [exact Hparent|].
    intros n. apply while_step; [lia|exact Hparent].
Qed.

Lemma malformed_group_clamped_witness :
  let wp := start sample_nested_overrun in
  let w := at_ 24 wp in
  let w' := at_ 24 (start (take 58 sample_nested_overrun
                             ++ ascii_bytes "anything else")) in
  dumpGRUPOrRecord inflate_stored 1 58 w = (Ok tt, at_ 58 w)
  ∧ dumpGRUPOrRecord inflate_stored 1 58 w' = (Ok tt, at_ 58 w')
  ∧ (position (ins w) < 58 →
     ∀ n, while_tell_lt (S (S n)) 58 (dumpGRUPOrRecord inflate_stored 1 58) w
          = (Ok tt, at_ 58 w))
  ∧ (∀ wp end_out,
       w = at_ (position (ins wp) + 24) wp →
       header_available (ins wp) → tag_at (ins wp) = GRUP →
       position (ins wp) + u32_at (ins wp) 4 = 58 → 58 ≤ end_out →
       dumpGRUPOrRecord inflate_stored 2 end_out wp = (Ok tt, at_ 58 wp)
       ∧ ∀ n, while_tell_lt (S n) end_out
                (dumpGRUPOrRecord inflate_stored 2 end_out) wp
              = while_tell_lt n end_out
                  (dumpGRUPOrRecord inflate_stored 2 end_out) (at_ 58 wp)).
Proof.
  apply (malformed_group_clamped inflate_stored 0 58
           (at_ 24 (start sample_nested_overrun))
           (at_ 24 (start (take 58 sample_nested_overrun
                             ++ ascii_bytes "anything else")))).
  - simpl. lia.
  - vm_compute. discriminate.
  - split; reflexivity.
  - right. split; [reflexivity|]. vm_compute. reflexivity.
Defined.

(** The walk of that file: the inner group is cut at the end of the
    outer one, ten bytes of which are passed over, and the record that
    follows the outer group is counted. *)
Example nested_overrun_sibling_counted :
  let out := dumpPlugin inflate_stored 2 sample_nested_overrun in
  out.1 = Ok tt
  ∧ position (ins out.2) = 92
  ∧ (∃ s, stats out.2 !! "CELL"%string = Some s
          ∧ s !! "count"%string = Some (VInt 1)
          ∧ s !! "sizes"%string = Some (VList [10]))
  ∧ dumpGRUPOrRecord inflate_stored 2 92 (start sample_nested_overrun)
    = (Ok tt, at_ 58 (start sample_nested_overrun)).
Proof.
  split; [vm_compute; reflexivity|]. split; [vm_compute; reflexivity|]. split.
  - eexists. split; [vm_compute; reflexivity|].
    split; vm_compute; reflexivity.
  - vm_compute. reflexivity.
Qed.

(** ** Compressed records *)





(** C1, as stated, fails: after a compressed record whose payload does
    not inflate, the walk of the file is over. The record that follows
    is never seen, and the cursor stays before it. *)
Lemma corrupt_record_counterexample :
  let out := dumpPlugin inflate_stored 1 sample_corrupt in
  inflate_stored [x00; x00] = None
  ∧ out.1 = Raise ZlibError
  ∧ stats out.2 !! "NPC_"%string = None
  ∧ position (ins out.2) = 30
  ∧ Z.of_nat (length sample_corrupt) = 54.
Proof. vm_compute. repeat split; reflexivity. Qed.

(** C1 (amended): if zlib cannot inflate the payload of a compressed
    record, [zlib.error] is raised out of the walker and ends the walk
    of the file: the loop that made the call stops with that exception
    and no later record is processed. The record has been counted, but
    it gets no size, no compressed count and no subrecord; the cursor
    is left after the data that was read, whether or not the record
    lies wholly in the file: [postHeaderPosition] plus the least of
    [dataSize], the bytes left in the file and [READ_MAX]. *)
Theorem corrupt_record_ends_walk (zd : list byte → option (list byte))
    (depth : nat) (end_ : Z) (w : World) (Type_ : string) :
  let dataSize := u32_at (ins w) 4 in
  let flags := u32_at (ins w) 8 in
  let s0 := default ∅ (stats w !! Type_) in
  let data := record_data (ins w) in
  WF_stats (stats w) →
  header_available (ins w) → position (ins w) + 24 ≤ end_ →
  tag_at (ins w) ≠ GRUP →
  decode_ascii (tag_at (ins w)) = Ok Type_ →
  Z.land flags 0x20 = 0 → Z.land flags 0x00040000 ≠ 0 →
  (4 ≤ length data)%nat →
  zd (drop 4 data) = None →
  let read := Z.min (Z.min dataSize READ_MAX) (remaining (ins w) - 24) in
  let w' :=
    mkWorld (set_position (position (ins w) + 24 + read) (ins w))
      (<[Type_ := <["count"%string := VInt (int_field s0 "count" + 1)]> s0]>
         (stats w)) in
  Z.of_nat (length data) = read
  ∧ dumpGRUPOrRecord zd (S depth) end_ w = (Raise ZlibError, w')
  ∧ ∀ n, while_tell_lt (S n) end_ (dumpGRUPOrRecord zd (S depth) end_) w
         = (Raise ZlibError, w').
Proof.
  cbn zeta. intros HWF Hav Hend Htag Hdec Hdel Hcomp Hlen Hzd.
  pose proof (WF_stats_default _ Type_ HWF) as HWF0.
  pose proof (record_data_length (ins w) Hav) as Hread.
  split; [exact Hread|].
  assert (dumpGRUPOrRecord zd (S depth) end_ w
          = (Raise ZlibError,
             mkWorld (set_position
                        (position (ins w) + 24
                         + Z.min (Z.min (u32_at (ins w) 4) READ_MAX)
                             (remaining (ins w) - 24))
                        (ins w))
               (<[Type_ := <["count"%string :=
                               VInt (int_field (default ∅ (stats w !! Type_))
                                       "count" + 1)]>
                             (default ∅ (stats w !! Type_))]> (stats w))))
    as Hcall.
  { rewrite (dump_live_record zd depth end_ w Type_) by done. cbn zeta.
    rewrite record_stats_corrupt by done. cbn [fst snd].
    now rewrite Hread. }
  split; [exact Hcall|].
  intros n. apply while_raise; [lia|exact Hcall].
Qed.

Lemma corrupt_record_ends_walk_witness :
  let w := start sample_cut in
  let w' := mkWorld (set_position (0 + 24 + 6) (ins w))
              (<["CELL"%string := <["count"%string := VInt (0 + 1)]> ∅]> ∅) in
  Z.of_nat (length (record_data (ins w))) = 6
  ∧ dumpGRUPOrRecord inflate_stored 1 30 w = (Raise ZlibError, w')
  ∧ ∀ n, while_tell_lt (S n) 30 (dumpGRUPOrRecord inflate_stored 1 30) w
         = (Raise ZlibError, w').
Proof.
  apply (corrupt_record_ends_walk inflate_stored 0 30
           (start sample_cut) "CELL").
  - intros T s Hs. simpl in Hs. now rewrite lookup_empty in Hs.
  - split; vm_compute; discriminate.
  - vm_compute. discriminate.
  - vm_compute. discriminate.
  - vm_compute. reflexivity.
  - vm_compute. reflexivity.
  - vm_compute. discriminate.
  - vm_compute. lia.
  - vm_compute. reflexivity.
Defined.

(** ** Subrecords *)

Lemma byte_val_of_Z n : byte_val (byte_of_Z n) = n mod 256.
Proof.
  unfold byte_val, byte_of_Z.
  pose proof (Z.mod_pos_bound n 256 ltac:(lia)) as Hb.
  destruct (Byte.of_N (Z.to_N (n mod 256))) as [b|] eqn:E.
  - simpl. apply Byte.to_of_N in E. rewrite E. lia.
  - apply Byte.of_N_None_iff in E. lia.
Qed.

Lemma le_bytes_length width n : length (le_bytes width n) = width.
Proof.
  revert n. induction width as [|w IH]; intros n; simpl; [done|].
  now rewrite IH.
Qed.

Lemma le_value_le_bytes width : ∀ n,
  0 ≤ n < 256 ^ Z.of_nat width → le_value (le_bytes width n) = n.
Proof.
  induction width as [|w IH]; intros n Hn.
  - simpl in *. lia.
  - cbn [le_bytes le_value]. rewrite byte_val_of_Z.
    rewrite Nat2Z.inj_succ, Z.pow_succ_r in Hn by lia.
    rewrite IH.
    + pose proof (Z.div_mod n 256 ltac:(lia)). lia.
    + split; [apply Z.div_pos; lia|].
      apply Z.div_lt_upper_bound; lia.
Qed.

Lemma slice_app_mid (pre x post : list byte) a b :
  a = Z.of_nat (length pre) → b = a + Z.of_nat (length x) →
  slice (pre ++ x ++ post) a b = x.
Proof.
  intros -> ->. unfold slice.
  rewrite Nat2Z.id, drop_app_length.
  replace (Z.to_nat _) with (length x) by lia.
  apply take_app_length.
Qed.

Lemma sub_trace_at_end fuel data pos :
  Z.of_nat (length data) - 6 ≤ pos →
  sub_trace fuel data pos = ([], Ok tt).
Proof.
  intros H. destruct fuel; simpl;
    destruct (Z.ltb_spec pos (Z.of_nat (length data) - 6)); (lia || done).
Qed.

(** C7: a payload made of the escape tag [XXXX], a 4-byte size, the
    real type tag, two bytes that are skipped and that many bytes of
    data yields exactly one subrecord, under the real tag (not the
    escape tag) and with the 4-byte size, and one occurrence-count
    sample of 1 for that tag. *)
Theorem extended_subrecord_parsed (tag skipped payload : list byte)
    (size : Z) (s : gmap string PyVal) :
  length tag = 4%nat → is_ascii tag → length skipped = 2%nat →
  0 ≤ size < 2 ^ 32 → Z.of_nat (length payload) = size →
  WF_rec s →
  let data := ascii_bytes XXXX ++ le_bytes 4 size ++ tag ++ skipped
                ++ payload in
  let key := string_of_list_byte tag in
  subrecords data = ([(key, size)], Ok tt)
  ∧ dumpSubRecords data s
    = (Ok tt, append_in "counts" (append_in "sizes" s (key, size)) (key, 1)).
Proof.
  intros Htag Hascii Hskip Hsize Hpay HWF data key.
  assert (Z.of_nat (length data) = 14 + size) as Hlen.
  { unfold data. rewrite !length_app, le_bytes_length, Htag, Hskip.
    simpl. lia. }
  assert (sub_header data 0 = Ok (size, key, 14)) as Hhdr.
  { unfold sub_header. cbn zeta.
    assert (slice data 0 (0 + 4) = ascii_bytes XXXX) as ->
        by (unfold data; now apply (slice_app_mid [])).
    change (decode_ascii (ascii_bytes XXXX)) with (Ok XXXX).
    cbn [res_bind]. rewrite decide_True by done.
    assert (slice data (0 + 4) (0 + 4 + 4) = le_bytes 4 size) as ->.
    { unfold data. apply slice_app_mid; [done|].
      now rewrite le_bytes_length. }
    unfold unpack_unsigned. rewrite decide_True by apply le_bytes_length.
    cbn [res_bind]. rewrite le_value_le_bytes by (simpl; lia).
    assert (slice data (0 + 4 + 4) (0 + 4 + 4 + 4) = tag) as ->.
    { unfold data. rewrite (app_assoc (ascii_bytes XXXX)).
      apply slice_app_mid.
      - rewrite length_app, le_bytes_length. done.
      - rewrite Htag. done. }
    rewrite decode_ascii_ok by done. reflexivity. }
  assert (subrecords data = ([(key, size)], Ok tt)) as Htr.
  { unfold subrecords.
    destruct (length data) as [|n] eqn:Hn; [simpl in Hlen; lia|].
    cbn [sub_trace]. rewrite Hn.
    destruct (Z.ltb_spec 0 (Z.of_nat (S n) - 6)); [|lia].
    rewrite Hhdr.
    destruct (Z.gtb_spec (14 + size) (Z.of_nat (S n))); [lia|].
    rewrite sub_trace_at_end by lia. reflexivity. }
  split; [exact Htr|].
  rewrite dumpSubRecords_spec by now apply WF_rec_keys_ok.
  rewrite Htr. cbn [fst snd fold_left count_all].
  unfold counts_get, counts_set. reflexivity.
Qed.

Lemma extended_subrecord_parsed_witness :
  let data := ascii_bytes XXXX ++ le_bytes 4 3 ++ ascii_bytes "DATA"
                ++ [x00; x00] ++ ascii_bytes "abc" in
  subrecords data = ([("DATA"%string, 3)], Ok tt)
  ∧ dumpSubRecords data ∅
    = (Ok tt,
       append_in "counts" (append_in "sizes" ∅ ("DATA"%string, 3))
         ("DATA"%string, 1)).
Proof.
  apply (extended_subrecord_parsed (ascii_bytes "DATA") [x00; x00]
           (ascii_bytes "abc") 3 ∅).
  - reflexivity.
  - apply Forall_forall. vm_compute. intros x Hx.
    repeat (apply elem_of_cons in Hx as [->|Hx]; [reflexivity|]).
    now apply elem_of_nil in Hx.
  - reflexivity.
  - lia.
  - reflexivity.
  - intros k v Hk. now rewrite lookup_empty in Hk.
Defined.

(** C4, the failing input: a payload that is exactly one 6-byte header
    of a subrecord of length zero. The loop runs only while more than 6
    bytes remain, so it does not run at all here: no subrecord is
    reported and the statistics are untouched, as for every payload of
    at most 6 bytes, while the same header followed by one more byte is
    reported. *)
Theorem six_byte_subrecord_not_parsed :
  let six := subrecord (ascii_bytes "EDID") [] in
  Z.of_nat (length six) = 6
  ∧ subrecords six = ([], Ok tt)
  ∧ (∀ s, dumpSubRecords six s = (Ok tt, s))
  ∧ subrecords (six ++ [x00]) = ([("EDID"%string, 0)], Ok tt)
  ∧ ∀ data s, Z.of_nat (length data) ≤ 6 →
      dumpSubRecords data s = (Ok tt, s).
Proof.
  cbn zeta. split; [reflexivity|]. split; [reflexivity|].
  split; [intros s; reflexivity|]. split; [vm_compute; reflexivity|].
  intros data s Hlen. unfold dumpSubRecords, bind.
  assert (∀ fuel, dumpSubRecords_loop fuel data 0 [] s = (Ok [], s)) as ->;
    [|reflexivity].
  intros fuel. destruct fuel; cbn [dumpSubRecords_loop];
    destruct (Z.ltb_spec 0 (Z.of_nat (length data) - 6)); (lia || done).
Qed.

(** ** Tags *)

Lemma dumpSubRecords_outcome data s :
  WF_rec s → (dumpSubRecords data s).1 = (subrecords data).2.
Proof.
  intros H. rewrite dumpSubRecords_spec by now apply WF_rec_keys_ok.
  now destruct (subrecords data).2 as [[]|e|].
Qed.





(** ** The statistics after a walk *)

Lemma WF_stats_empty : WF_stats ∅.
Proof. intros T s Hs. now rewrite lookup_empty in Hs. Qed.

Lemma Inv_stats_empty : Inv_stats ∅.
Proof. intros T s Hs. now rewrite lookup_empty in Hs. Qed.

(** C10: the walk of a plugin returns or raises, and when it returns
    every record type of the statistics has a count of at least one, as
    many sizes as its count, a compressed count between 0 and its count,
    and for every subrecord type at least one and at most that many
    occurrence samples, and at least one size. Entries are created on
    first sight and never removed: a call, and a loop of calls, keeps
    every record type and every key already there; a record that is not
    deleted has its entry from the moment it is handled; and a
    subrecord type has its entry, with the sizes met so far, from the
    moment the parser has met it, also when the parse raises later. *)
Theorem statistics_invariant (zd : list byte → option (list byte))
    (depth : nat) (c : list byte) :
  (dumpPlugin zd depth c).1 ≠ Fuel
  ∧ ((dumpPlugin zd depth c).1 = Ok tt →
     ∀ T s, stats (dumpPlugin zd depth c).2 !! T = Some s →
       ∃ sz : list Z,
         (1 ≤ length sz)%nat
         ∧ s !! "count"%string = Some (VInt (Z.of_nat (length sz)))
         ∧ s !! "sizes"%string = Some (VList sz)
         ∧ 0 ≤ int_field s "compressed" ≤ Z.of_nat (length sz)
         ∧ ∀ k d, s !! k = Some (VDict d) →
             (1 ≤ length (list_field d "counts") ≤ length sz)%nat
             ∧ (1 ≤ length (list_field d "sizes"))%nat)
  ∧ (∀ depth' end_ w,
       WF_stats (stats w) →
       keys_kept (stats w) (stats (dumpGRUPOrRecord zd depth' end_ w).2)
       ∧ ∀ n limit,
           keys_kept (stats w)
             (stats (while_tell_lt n limit
                       (dumpGRUPOrRecord zd depth' end_) w).2))
  ∧ (∀ Type_ dataSize flags w,
       WF_stats (stats w) →
       is_Some (stats (dumpRecordData zd Type_ dataSize flags w).2 !! Type_))
  ∧ (∀ data s k,
       WF_rec s → k ∈ (subrecords data).1.*1 →
       ∃ d, (dumpSubRecords data s).2 !! k = Some (VDict d)
            ∧ list_field d "sizes"
              = list_field (sub_dict s k) "sizes"
                ++ sizes_under k (subrecords data).1
            ∧ sizes_under k (subrecords data).1 ≠ [])
  ∧ (∀ Type_ dataSize flags w k,
       WF_stats (stats w) → Z.land flags 0x00040000 = 0 →
       k ∈ (subrecords (file_read dataSize (ins w)).1).1.*1 →
       ∃ s' d,
         stats (dumpRecordData zd Type_ dataSize flags w).2 !! Type_ = Some s'
         ∧ s' !! k = Some (VDict d)
         ∧ list_field d "sizes" ≠ []).
Proof.
  split; [apply dumpPlugin_result|]. split; [|split; [|split; [|split]]].
  - intros Hok T s Hs.
    pose proof (while_report_post zd (walk_fuel c) (Z.of_nat (length c))
                  depth (Z.of_nat (length c))
                  (mkWorld (mkFile c 0) ∅)) as [Hpost Hcomp].
    cbn zeta in Hpost, Hcomp. fold (dumpPlugin zd depth c) in Hpost, Hcomp.
    destruct (Hpost WF_stats_empty) as (_ & _ & _ & _ & Hinv).
    destruct (Hinv Hok Inv_stats_empty T s Hs)
      as (_ & sz & Hcount & Hsizes & Hcomp' & Hsub).
    destruct (Hcomp WF_stats_empty Hok complete_empty T s Hs) as [Hne Hfull].
    unfold sizes_of in Hne. rewrite Hsizes in Hne.
    exists sz. split; [destruct sz; [done|simpl; lia]|].
    split; [done|]. split; [done|]. split.
    + unfold int_field. destruct Hcomp' as [->|(c0 & -> & Hc0)]; lia.
    + intros k d Hk. destruct (Hfull k d Hk) as [Hc Hz].
      specialize (Hsub k d Hk).
      destruct (list_field d "counts"); [done|].
      destruct (list_field d "sizes"); [done|]. simpl in *. lia.
  - intros depth' end_ w HWF. split.
    + now apply (dump_post zd depth' end_ w).
    + intros n limit. now apply (while_post zd n limit depth' end_ w).
  - intros Type_ dataSize flags w HWF.
    rewrite dumpRecordData_eq by done. cbn [snd stats].
    eexists. apply lookup_insert_eq.
  - intros data s k HWF Hin.
    destruct (dumpSubRecords_entry data s k HWF Hin) as (d & Hd & Hsz).
    exists d. split; [done|]. split; [done|]. now apply sizes_under_in.
  - intros Type_ dataSize flags w k HWF Hplain Hin.
    pose proof (WF_stats_default _ Type_ HWF) as HWF0.
    rewrite dumpRecordData_eq by done. cbn [snd stats].
    rewrite record_stats_plain by done.
    set (data := (file_read dataSize (ins w)).1) in *.
    destruct (dumpSubRecords_entry data
                (recorded false (Z.of_nat (length data))
                   (default ∅ (stats w !! Type_))) k)
      as (d & Hd & Hsz); [now apply recorded_WF|done|].
    eexists _, d. split; [apply lookup_insert_eq|]. split; [exact Hd|].
    rewrite Hsz. intros Happ. apply app_eq_nil in Happ as [_ Happ].
    revert Happ. now apply sizes_under_in.
Qed.

Lemma statistics_invariant_witness :
  let out := dumpPlugin inflate_stored 2 sample_plugin in
  out.1 = Ok tt
  ∧ ∀ T s, stats out.2 !! T = Some s →
      ∃ sz : list Z,
        (1 ≤ length sz)%nat
        ∧ s !! "count"%string = Some (VInt (Z.of_nat (length sz)))
        ∧ s !! "sizes"%string = Some (VList sz)
        ∧ 0 ≤ int_field s "compressed" ≤ Z.of_nat (length sz)
        ∧ ∀ k d, s !! k = Some (VDict d) →
            (1 ≤ length (list_field d "counts") ≤ length sz)%nat
            ∧ (1 ≤ length (list_field d "sizes"))%nat.
Proof.
  assert ((dumpPlugin inflate_stored 2 sample_plugin).1 = Ok tt) as Hok
      by (vm_compute; reflexivity).
  split; [exact Hok|].
  destruct (statistics_invariant inflate_stored 2 sample_plugin)
    as (_ & Hinv & _).
  exact (Hinv Hok).
Defined.

(** The scenario of the specification: one group around two [CELL]
    records with one [EDID] each, of sizes 4 and 6. *)
Example sample_plugin_statistics :
  let out := dumpPlugin inflate_stored 2 sample_plugin in
  out.1 = Ok tt
  ∧ position (ins out.2) = 94
  ∧ ∃ s, stats out.2 !! "CELL"%string = Some s
         ∧ s !! "count"%string = Some (VInt 2)
         ∧ s !! "sizes"%string = Some (VList [10; 12])
         ∧ s !! "compressed"%string = None
         ∧ list_field (sub_dict s "EDID") "sizes" = [4; 6]
         ∧ list_field (sub_dict s "EDID") "counts" = [1; 1].
Proof.
  cbn zeta. split; [vm_compute; reflexivity|].
  split; [vm_compute; reflexivity|].
  eexists. split; [vm_compute; reflexivity|].
  repeat split; vm_compute; reflexivity.
Qed.

(** * Further properties of the walker *)

Lemma while_exit fuel limit body : ∀ w,
  (while_tell_lt fuel limit body w).1 = Ok tt →
  limit ≤ position (ins (while_tell_lt fuel limit body w).2).
Proof.
  induction fuel as [|fuel IH]; intros w; [discriminate|].
  cbn [while_tell_lt]. rewrite on_file_tell.
  destruct (Z.ltb_spec (position (ins w)) limit) as [Hlt|Hge].
  - unfold bind. destruct (body w) as [[[]|e|] w1]; cbn [fst snd];
      [apply IH|discriminate..].
  - intros _. exact Hge.
Qed.

(** X1: a file shorter than one 24-byte header (the empty file
    included) is walked without error: the statistics stay empty and
    the cursor ends on the end of the file. *)
Theorem short_file_ignored (zd : list byte → option (list byte))
    (depth : nat) (c : list byte) :
  (length c < 24)%nat →
  dumpPlugin zd depth c
  = (Ok tt, mkWorld (mkFile c (Z.of_nat (length c))) ∅).
Proof.
  intros Hlen. unfold dumpPlugin, walk_fuel. cbn zeta.
  destruct (length c) as [|n] eqn:Hn.
  - rewrite while_done by (simpl; lia). reflexivity.
  - erewrite while_step; [| simpl; lia |].
    2: { apply dump_padding; simpl; lia. }
    rewrite while_done by (simpl; lia). reflexivity.
Qed.

Lemma short_file_ignored_witness :
  dumpPlugin inflate_stored 0 (ascii_bytes "TES4")
  = (Ok tt, mkWorld (mkFile (ascii_bytes "TES4") 4) ∅).
Proof.
  apply (short_file_ignored inflate_stored 0 (ascii_bytes "TES4")).
  simpl. lia.
Defined.

(** X2: a group whose declared size is at most 24 (the size of its own
    header, so that the payload length computed is zero or negative) is
    taken as an empty group: only its header is consumed, nothing is
    raised and the statistics are unchanged. *)
Theorem empty_group_skipped (zd : list byte → option (list byte))
    (depth : nat) (end_ : Z) (w : World) :
  header_available (ins w) → position (ins w) + 24 ≤ end_ →
  tag_at (ins w) = GRUP → u32_at (ins w) 4 ≤ 24 →
  dumpGRUPOrRecord zd (S (S depth)) end_ w
  = (Ok tt, at_ (position (ins w) + 24) w).
Proof.
  intros Hav Hend Htag Hsmall.
  rewrite dump_group by done. cbn zeta.
  destruct (Z.gtb_spec (position (ins w) + 24 + (u32_at (ins w) 4 - 24))
              end_); [lia|].
  apply while_done. simpl. lia.
Qed.

Lemma empty_group_skipped_witness :
  let w := start (group_header 7 (ascii_bytes "WRLD")) in
  dumpGRUPOrRecord inflate_stored 2 24 w
  = (Ok tt, at_ (position (ins w) + 24) w).
Proof.
  apply (empty_group_skipped inflate_stored 0 24
           (start (group_header 7 (ascii_bytes "WRLD")))).
  - split; vm_compute; discriminate.
  - vm_compute. discriminate.
  - reflexivity.
  - vm_compute. discriminate.
Defined.

(** X3: a group that fits in its region is never left early: when the
    call on it returns, the cursor is at or past the declared end of
    the group; and when the walk of a file returns, the cursor is at or
    past the end of the file. *)
Theorem group_walked_to_its_end (zd : list byte → option (list byte))
    (depth room : nat) (end_ : Z) (w : World) (c : list byte) :
  header_available (ins w) → position (ins w) + 24 ≤ end_ →
  tag_at (ins w) = GRUP →
  position (ins w) + u32_at (ins w) 4 ≤ end_ →
  ((dumpGRUPOrRecord zd (S depth) end_ w).1 = Ok tt →
   position (ins w) + u32_at (ins w) 4
   ≤ position (ins (dumpGRUPOrRecord zd (S depth) end_ w).2))
  ∧ ((dumpPlugin zd room c).1 = Ok tt →
     Z.of_nat (length c) ≤ position (ins (dumpPlugin zd room c).2)).
Proof.
  intros Hav Hend Htag Hfit. split.
  - rewrite dump_group by done. cbn zeta.
    destruct (Z.gtb_spec (position (ins w) + 24 + (u32_at (ins w) 4 - 24))
                end_); [lia|].
    intros Hok. apply while_exit in Hok. lia.
  - apply while_exit.
Qed.

Lemma group_walked_to_its_end_witness :
  let w := start sample_plugin in
  ((dumpGRUPOrRecord inflate_stored 95 94 w).1 = Ok tt →
   position (ins w) + u32_at (ins w) 4
   ≤ position (ins (dumpGRUPOrRecord inflate_stored 95 94 w).2))
  ∧ ((dumpPlugin inflate_stored 2 sample_plugin).1 = Ok tt →
     Z.of_nat (length sample_plugin)
     ≤ position (ins (dumpPlugin inflate_stored 2 sample_plugin).2)).
Proof.
  apply (group_walked_to_its_end inflate_stored 94 2 94
           (start sample_plugin) sample_plugin).
  - split; vm_compute; discriminate.
  - vm_compute. discriminate.
  - reflexivity.
  - vm_compute. discriminate.
Defined.

(** X15: the nesting of groups is bounded by the room for calls: a
    call on a group header made with no room left raises
    [RecursionError] once the tag is read, the cursor 4 bytes after the
    start of the header; and an exception raised by the call on the
    first child of a group -- this one or any other -- leaves the call
    on the group as it is, with the state in which it was raised. *)
Theorem nesting_exhausts_recursion (zd : list byte → option (list byte))
    (depth : nat) (end_ : Z) (w : World) :
  header_available (ins w) → position (ins w) + 24 ≤ end_ →
  tag_at (ins w) = GRUP →
  dumpGRUPOrRecord zd 0 end_ w
  = (Raise RecursionError, at_ (position (ins w) + 4) w)
  ∧ ∀ wp end_out e w1,
      w = at_ (position (ins wp) + 24) wp →
      header_available (ins wp) → tag_at (ins wp) = GRUP →
      position (ins wp) + u32_at (ins wp) 4 = end_ → end_ ≤ end_out →
      dumpGRUPOrRecord zd depth end_ w = (Raise e, w1) →
      dumpGRUPOrRecord zd (S depth) end_out wp = (Raise e, w1).
Proof.
  intros Hav Hend Htag. split.
  - destruct w as [[c p] st]. unfold header_available, file_size, at_,
      tag_at, bytes_at, set_position in *.
    cbn [ins content position stats] in *. destruct Hav as [Hp Hlen].
    replace (p + 0) with p in Htag by lia.
    cbn [dumpGRUPOrRecord]. rewrite on_file_tell. cbn [ins position].
    destruct (Z.gtb_spec (p + 24) end_); [lia|].
    erewrite on_file_bind_ok by (apply read_at; lia).
    now rewrite decide_True.
  - intros wp end_out e w1 Hw Havp Htagp Hdecl Hout Hraise.
    assert (position (ins w) = position (ins wp) + 24) as Hpw
        by (rewrite Hw; reflexivity).
    rewrite dump_group by (done || lia). cbn zeta.
    replace (position (ins wp) + 24 + (u32_at (ins wp) 4 - 24))
      with end_ by lia.
    destruct (Z.gtb_spec end_ end_out); [lia|].
    fold (at_ (position (ins wp) + 24) wp). rewrite <- Hw.
    unfold loop_fuel. apply while_raise; [lia|exact Hraise].
Qed.

Lemma nesting_exhausts_recursion_witness :
  let wp := start sample_nested in
  let w := at_ 24 wp in
  dumpGRUPOrRecord inflate_stored 0 48 w
  = (Raise RecursionError, at_ (position (ins w) + 4) w)
  ∧ ∀ wp end_out e w1,
      w = at_ (position (ins wp) + 24) wp →
      header_available (ins wp) → tag_at (ins wp) = GRUP →
      position (ins wp) + u32_at (ins wp) 4 = 48 → 48 ≤ end_out →
      dumpGRUPOrRecord inflate_stored 0 48 w = (Raise e, w1) →
      dumpGRUPOrRecord inflate_stored 1 end_out wp = (Raise e, w1).
Proof.
  apply (nesting_exhausts_recursion inflate_stored 0 48
           (at_ 24 (start sample_nested))).
  - split; vm_compute; discriminate.
  - vm_compute. discriminate.
  - reflexivity.
Defined.

(** A group in a group is walked with room for two calls and not with
    room for one; the group around two records of [sample_plugin]
    likewise. *)
Example nested_groups_and_room :
  dumpPlugin inflate_stored 1 sample_nested
  = (Raise RecursionError, at_ 28 (start sample_nested))
  ∧ dumpPlugin inflate_stored 2 sample_nested
    = (Ok tt, at_ 48 (start sample_nested))
  ∧ (dumpPlugin inflate_stored 1 sample_plugin).1 = Raise RecursionError
  ∧ (dumpPlugin inflate_stored 2 sample_plugin).1 = Ok tt.
Proof. repeat split; vm_compute; reflexivity. Qed.

(** X4: a record that is neither deleted nor compressed is counted
    once, with as its size the number of data bytes actually read: the
    declared length, or less when the file ends before it or when the
    length is above what one read returns (0x7ffff000 bytes); neither
    raises anything. Its compressed count is untouched, the subrecords
    are parsed from the bytes read, and when the call returns the
    cursor is at [postHeaderPosition + dataSize], past the end of the
    file for a record that was cut short. *)
Theorem plain_record_counted (zd : list byte → option (list byte))
    (depth : nat) (end_ : Z) (w : World) (Type_ : string) :
  let dataSize := u32_at (ins w) 4 in
  let data := record_data (ins w) in
  let n := Z.of_nat (length data) in
  let s0 := default ∅ (stats w !! Type_) in
  WF_stats (stats w) →
  header_available (ins w) → position (ins w) + 24 ≤ end_ →
  tag_at (ins w) ≠ GRUP →
  decode_ascii (tag_at (ins w)) = Ok Type_ →
  Z.land (u32_at (ins w) 8) 0x20 = 0 →
  Z.land (u32_at (ins w) 8) 0x00040000 = 0 →
  let sub := dumpSubRecords data (recorded false n s0) in
  let out := dumpGRUPOrRecord zd (S depth) end_ w in
  data = bytes_at (ins w) 24 (Z.min dataSize READ_MAX)
  ∧ n = Z.min (Z.min dataSize READ_MAX) (remaining (ins w) - 24)
  ∧ out.1 = sub.1
  ∧ stats out.2 = <[Type_ := sub.2]> (stats w)
  ∧ (out.1 = Ok tt →
     position (ins out.2) = position (ins w) + 24 + dataSize)
  ∧ sub.2 !! "count"%string = Some (VInt (int_field s0 "count" + 1))
  ∧ sub.2 !! "sizes"%string = Some (VList (sizes_of s0 ++ [n]))
  ∧ sub.2 !! "compressed"%string = s0 !! "compressed"%string.
Proof.
  cbn zeta. intros HWF Hav Hend Htag Hdec Hdel Hplain.
  pose proof (WF_stats_default _ Type_ HWF) as HWF0.
  pose proof (u32_at_nonneg (ins w) 4) as Hds.
  split; [reflexivity|].
  split; [now apply record_data_length|].
  rewrite (dump_live_record zd depth end_ w Type_) by done. cbn zeta.
  rewrite record_stats_plain by done. cbn [fst snd stats ins].
  split; [done|]. split; [done|]. split.
  { intros ->. reflexivity. }
  destruct (dumpSubRecords_post (record_data (ins w))
              (recorded false
                 (Z.of_nat (length (record_data (ins w))))
                 (default ∅ (stats w !! Type_))))
    as (_ & _ & _ & _ & Hlong & _); [now apply recorded_WF|].
  rewrite !Hlong by (simpl; lia).
  now rewrite recorded_compressed, recorded_sizes, recorded_count.
Qed.

Lemma plain_record_counted_witness :
  let w := start (record_header CELL 100 0 ++ edid4) in
  let data := record_data (ins w) in
  let sub := dumpSubRecords data (recorded false 10 ∅) in
  let out := dumpGRUPOrRecord inflate_stored 1 34 w in
  data = bytes_at (ins w) 24 (Z.min 100 READ_MAX)
  ∧ 10 = Z.min (Z.min 100 READ_MAX) (remaining (ins w) - 24)
  ∧ out.1 = sub.1
  ∧ stats out.2 = <["CELL"%string := sub.2]> ∅
  ∧ (out.1 = Ok tt → position (ins out.2) = 0 + 24 + 100)
  ∧ sub.2 !! "count"%string = Some (VInt 1)
  ∧ sub.2 !! "sizes"%string = Some (VList [10])
  ∧ sub.2 !! "compressed"%string = None.
Proof.
  apply (plain_record_counted inflate_stored 0 34
           (start (record_header CELL 100 0 ++ edid4)) "CELL").
  - intros T s Hs. simpl in Hs. now rewrite lookup_empty in Hs.
  - split; vm_compute; discriminate.
  - vm_compute. discriminate.
  - vm_compute. discriminate.
  - vm_compute. reflexivity.
  - vm_compute. reflexivity.
  - vm_compute. reflexivity.
Defined.

(** X5: an escape tag [XXXX] with only three bytes behind it at the
    end of the payload is not tolerated as cut-off data: the 4-byte
    size cannot be unpacked and [struct.error] is raised, the
    statistics being left as they were at that point. *)
Theorem escape_tag_cut_raises (fuel : nat) (data : list byte) (pos : Z)
    (counts : list (string * Z)) (s : gmap string PyVal) :
  0 ≤ pos → slice data pos (pos + 4) = ascii_bytes XXXX →
  Z.of_nat (length data) = pos + 7 →
  dumpSubRecords_loop (S fuel) data pos counts s = (Raise StructError, s).
Proof.
  intros Hpos Htag Hlen. cbn [dumpSubRecords_loop].
  destruct (Z.ltb_spec pos (Z.of_nat (length data) - 6)); [|lia].
  rewrite bind_lift. unfold sub_header. rewrite Htag.
  change (decode_ascii (ascii_bytes XXXX)) with (Ok XXXX).
  cbn [res_bind]. rewrite decide_True by done.
  unfold unpack_unsigned. rewrite decide_False; [reflexivity|].
  pose proof (slice_length data (pos + 4) (pos + 7)) as H7.
  unfold slice in *. rewrite length_take, length_drop in *. lia.
Qed.

Lemma escape_tag_cut_raises_witness :
  dumpSubRecords_loop 1 (ascii_bytes "XXXXabc") 0 [] ∅
  = (Raise StructError, ∅).
Proof.
  apply (escape_tag_cut_raises 0 (ascii_bytes "XXXXabc") 0 [] ∅).
  - lia.
  - reflexivity.
  - reflexivity.
Defined.

(** * Further properties of the subrecord parser *)

Lemma subrecord_length t p :
  length (subrecord t p) = (length t + 2 + length p)%nat.
Proof.
  unfold subrecord. rewrite !length_app, le_bytes_length. lia.
Qed.

Lemma encode_subrecords_length l :
  Forall (λ tp : list byte * list byte, plain_tag tp.1) l →
  (6 * length l ≤ length (encode_subrecords l))%nat.
Proof.
  induction 1 as [|tp l [Ht _] _ IH]; simpl; [lia|].
  rewrite length_app, subrecord_length. lia.
Qed.

(** The header of a subrecord in normal form that lies in the data. *)
Lemma sub_header_normal pre t p post :
  plain_tag t → Z.of_nat (length p) < 65536 →
  sub_header (pre ++ subrecord t p ++ post) (Z.of_nat (length pre))
  = Ok (Z.of_nat (length p), string_of_list_byte t,
        Z.of_nat (length pre) + 6).
Proof.
  intros (Hlen & Hascii & Hne) Hp. unfold sub_header, subrecord.
  set (pos := Z.of_nat (length pre)).
  assert (slice (pre ++ (t ++ le_bytes 2 (Z.of_nat (length p)) ++ p) ++ post)
            pos (pos + 4) = t) as ->.
  { rewrite <- !app_assoc. apply slice_app_mid; [done|]. rewrite Hlen. lia. }
  rewrite decode_ascii_ok by done. cbn [res_bind].
  rewrite decide_False by done.
  assert (slice (pre ++ (t ++ le_bytes 2 (Z.of_nat (length p)) ++ p) ++ post)
            (pos + 4) (pos + 4 + 2) = le_bytes 2 (Z.of_nat (length p))) as ->.
  { rewrite <- !app_assoc. rewrite (app_assoc pre t).
    apply slice_app_mid.
    - rewrite length_app, Hlen. lia.
    - rewrite le_bytes_length. lia. }
  unfold unpack_unsigned. rewrite decide_True by apply le_bytes_length.
  cbn [res_bind].
  rewrite le_value_le_bytes by (change (256 ^ Z.of_nat 2) with 65536; lia).
  replace (pos + 4 + 2) with (pos + 6) by lia. reflexivity.
Qed.

Lemma sub_trace_encoded l : ∀ fuel pre tail,
  (length l ≤ fuel)%nat →
  Forall (λ tp, plain_tag tp.1 ∧ Z.of_nat (length tp.2) < 65536) l →
  (length tail ≤ 6)%nat →
  (∀ tp, last l = Some tp → tp.2 ≠ [] ∨ tail ≠ []) →
  sub_trace fuel (pre ++ encode_subrecords l ++ tail) (Z.of_nat (length pre))
  = (reported <$> l, Ok tt).
Proof.
  induction l as [|tp l IH]; intros fuel pre tail Hfuel Hall Htail Hlast.
  - apply sub_trace_at_end. simpl. rewrite length_app. lia.
  - destruct fuel as [|fuel]; [simpl in Hfuel; lia|].
    inversion Hall as [|? ? [Hplain Hp] Hall']; subst.
    cbn [encode_subrecords]. rewrite <- (app_assoc (subrecord _ _)).
    cbn [sub_trace].
    assert (Forall (λ tp : list byte * list byte, plain_tag tp.1) l) as Htags
        by (eapply Forall_impl; [exact Hall'|]; now intros ? []).
    pose proof (encode_subrecords_length l Htags) as Henc.
    assert (Z.of_nat (length (pre ++ subrecord tp.1 tp.2
                                ++ encode_subrecords l ++ tail))
            = Z.of_nat (length pre) + 6 + Z.of_nat (length tp.2)
              + Z.of_nat (length (encode_subrecords l))
              + Z.of_nat (length tail)) as Hsize.
    { rewrite !length_app, subrecord_length.
      destruct Hplain as [-> _]. lia. }
    rewrite Hsize.
    assert (0 < length tp.2 + length (encode_subrecords l) + length tail)%nat
      as Hmore.
    { destruct l as [|tp' l'].
      - destruct (Hlast tp eq_refl) as [Hne|Hne].
        + destruct tp.2; [done|simpl; lia].
        + destruct tail; [done|simpl; lia].
      - change (length (tp' :: l')) with (S (length l')) in Henc. lia. }
    destruct (Z.ltb_spec (Z.of_nat (length pre))
                (Z.of_nat (length pre) + 6 + Z.of_nat (length tp.2)
                 + Z.of_nat (length (encode_subrecords l))
                 + Z.of_nat (length tail) - 6)); [|lia].
    rewrite sub_header_normal by done.
    destruct (Z.gtb_spec (Z.of_nat (length pre) + 6 + Z.of_nat (length tp.2))
                (Z.of_nat (length pre) + 6 + Z.of_nat (length tp.2)
                 + Z.of_nat (length (encode_subrecords l))
                 + Z.of_nat (length tail))); [lia|].
    rewrite (app_assoc pre).
    replace (Z.of_nat (length pre) + 6 + Z.of_nat (length tp.2))
      with (Z.of_nat (length (pre ++ subrecord tp.1 tp.2))).
    2: { rewrite length_app, subrecord_length.
         destruct Hplain as [-> _]. lia. }
    rewrite IH; [reflexivity|simpl in Hfuel; lia|done|done|].
    intros tp' Hl. apply Hlast. destruct l; [discriminate|exact Hl].
Qed.

(** X6: writing subrecords out in normal form and parsing them gives
    them back, tag and length, in order -- also when up to six stray
    bytes follow them, which are ignored: the loop of [dumpSubRecords]
    returns having counted each of them and appended each length, in
    order, to the sizes of its tag, and [dumpSubRecords] then returns
    with one occurrence sample per tag met. The last subrecord must
    have data, or something must follow it: the loop needs more than
    six bytes to go on. *)
Theorem subrecords_round_trip (l : list (list byte * list byte))
    (tail : list byte) (counts : list (string * Z))
    (s : gmap string PyVal) :
  Forall (λ tp, plain_tag tp.1 ∧ Z.of_nat (length tp.2) < 65536) l →
  (length tail ≤ 6)%nat →
  (∀ tp, last l = Some tp → tp.2 ≠ [] ∨ tail ≠ []) →
  dict_keys_ok s →
  let data := encode_subrecords l ++ tail in
  let tr := reported <$> l in
  dumpSubRecords_loop (length data) data 0 counts s
  = (Ok (count_all tr counts), fold_left (append_in "sizes") tr s)
  ∧ dumpSubRecords data s
    = (Ok tt, fold_left (append_in "counts") (count_all tr [])
                (fold_left (append_in "sizes") tr s))
  ∧ subrecords data = (tr, Ok tt).
Proof.
  intros Hall Htail Hlast Hok data tr.
  assert (subrecords data = (tr, Ok tt)) as Htr.
  { unfold subrecords, data, tr.
    apply (sub_trace_encoded l _ [] tail); [|done..].
    assert (Forall (λ tp : list byte * list byte, plain_tag tp.1) l)
      as Htags by (eapply Forall_impl; [exact Hall|]; now intros ? []).
    pose proof (encode_subrecords_length l Htags).
    rewrite length_app. lia. }
  split; [|split; [|exact Htr]].
  - rewrite loop_trace by (done || lia). fold (subrecords data).
    now rewrite Htr.
  - rewrite dumpSubRecords_spec by done. cbn zeta. now rewrite Htr.
Qed.

Lemma subrecords_round_trip_witness :
  let l := [(ascii_bytes "EDID", ascii_bytes "abcd");
            (ascii_bytes "DATA", []);
            (ascii_bytes "EDID", ascii_bytes "x")] in
  let data := encode_subrecords l ++ [x00; x00] in
  let tr := [("EDID"%string, 4); ("DATA"%string, 0); ("EDID"%string, 1)] in
  dumpSubRecords_loop (length data) data 0 [] ∅
  = (Ok (count_all tr []), fold_left (append_in "sizes") tr ∅)
  ∧ dumpSubRecords data ∅
    = (Ok tt, fold_left (append_in "counts") (count_all tr [])
                (fold_left (append_in "sizes") tr ∅))
  ∧ subrecords data = (tr, Ok tt).
Proof.
  apply (subrecords_round_trip
           [(ascii_bytes "EDID", ascii_bytes "abcd");
            (ascii_bytes "DATA", []);
            (ascii_bytes "EDID", ascii_bytes "x")] [x00; x00] [] ∅).
  - repeat constructor; simpl; try lia; try discriminate;
      apply Forall_forall; vm_compute; intros x Hx;
      repeat (apply elem_of_cons in Hx as [->|Hx]; [reflexivity|]);
      now apply elem_of_nil in Hx.
  - simpl. lia.
  - intros tp [= <-]. left. discriminate.
  - intros k v Hk. now rewrite lookup_empty in Hk.
Defined.

(** The dictionary of that run, entry by entry. *)
Example subrecords_round_trip_sample :
  let l := [(ascii_bytes "EDID", ascii_bytes "abcd");
            (ascii_bytes "DATA", []);
            (ascii_bytes "EDID", ascii_bytes "x")] in
  let out := dumpSubRecords (encode_subrecords l ++ [x00; x00]) ∅ in
  out.1 = Ok tt
  ∧ sub_dict out.2 "EDID" !! "sizes"%string = Some [4; 1]
  ∧ sub_dict out.2 "EDID" !! "counts"%string = Some [2]
  ∧ sub_dict out.2 "DATA" !! "sizes"%string = Some [0]
  ∧ sub_dict out.2 "DATA" !! "counts"%string = Some [1].
Proof. repeat split; vm_compute; reflexivity. Qed.

(** X7: what [dumpSubRecords] adds for the subrecords it reports: under
    every tag, the sizes of its subrecords in the order met; and, when
    the parse ends normally, one occurrence sample per tag met, equal to
    the number of subrecords of that tag in this record (no sample at
    all for a tag that did not occur). When the parse ends with an
    exception the sizes met so far are kept but no sample is added. *)
Theorem subrecord_statistics (data : list byte) (s : gmap string PyVal)
    (k : string) :
  WF_rec s →
  let tr := (subrecords data).1 in
  let out := dumpSubRecords data s in
  out.1 = (subrecords data).2
  ∧ list_field (sub_dict out.2 k) "sizes"
    = list_field (sub_dict s k) "sizes" ++ sizes_under k tr
  ∧ list_field (sub_dict out.2 k) "counts"
    = list_field (sub_dict s k) "counts"
      ++ match out.1 with
         | Ok _ => if decide (k ∈ tr.*1) then [occurrences k tr] else []
         | _ => []
         end.
Proof.
  intros HWF tr out.
  split; [now apply dumpSubRecords_outcome|].
  unfold out. rewrite dumpSubRecords_spec by now apply WF_rec_keys_ok.
  fold tr. destruct (subrecords data).2 as [[]|e|]; cbn [fst snd].
  - split.
    + rewrite fold_append_field by done. apply fold_append_own_field.
    + rewrite fold_append_own_field, fold_append_field by done.
      f_equal. rewrite sizes_under_NoDup
        by (apply count_all_NoDup; constructor).
      rewrite counts_get_count_all. cbn [counts_get].
      destruct (decide (k ∈ tr.*1)) as [Hin|Hout].
      * rewrite decide_True by now apply count_all_keys_in.
        f_equal.
      * rewrite decide_False; [done|].
        intros Hin. apply count_all_keys in Hin as [Hin|Hin];
          [now apply elem_of_nil in Hin|done].
  - split; [apply fold_append_own_field|].
    rewrite fold_append_field by done. now rewrite app_nil_r.
  - split; [apply fold_append_own_field|].
    rewrite fold_append_field by done. now rewrite app_nil_r.
Qed.

Lemma subrecord_statistics_witness :
  let data := encode_subrecords
                [(ascii_bytes "EDID", ascii_bytes "abcd");
                 (ascii_bytes "DATA", []);
                 (ascii_bytes "EDID", ascii_bytes "x")] in
  let tr := (subrecords data).1 in
  let out := dumpSubRecords data ∅ in
  out.1 = (subrecords data).2
  ∧ list_field (sub_dict out.2 "EDID") "sizes"
    = list_field (sub_dict ∅ "EDID") "sizes" ++ sizes_under "EDID" tr
  ∧ list_field (sub_dict out.2 "EDID") "counts"
    = list_field (sub_dict ∅ "EDID") "counts"
      ++ match out.1 with
         | Ok _ => if decide ("EDID"%string ∈ tr.*1)
                   then [occurrences "EDID" tr] else []
         | _ => []
         end.
Proof.
  apply (subrecord_statistics _ ∅ "EDID").
  intros k v Hk. now rewrite lookup_empty in Hk.
Defined.

(** * The checksum pass *)

Lemma crc32_ref_app a b v :
  crc32_ref (a ++ b) v = crc32_ref b (crc32_ref a v).
Proof.
  unfold crc32_ref. rewrite fold_left_app. do 2 f_equal.
  now rewrite Z.lxor_assoc, Z.lxor_nilpotent, Z.lxor_0_r.
Qed.

(** The check value of CRC-32. *)
Example crc32_ref_check :
  crc32_ref (ascii_bytes "123456789") 0 = 0xCBF43926.
Proof. vm_compute. reflexivity. Qed.

Section ChecksumFacts.

Variable crc32 : list byte → Z → Z.
Hypothesis crc32_app : ∀ a b v, crc32 (a ++ b) v = crc32 b (crc32 a v).

(** The running checksum is that of the bytes before the cursor. *)
Lemma crc_loop_spec c fuel : ∀ p,
  0 ≤ p ≤ Z.of_nat (length c) →
  Z.of_nat (length c) - p < Z.of_nat fuel →
  ∃ q, Z.of_nat (length c) ≤ q
       ∧ crc_loop crc32 fuel (Z.of_nat (length c))
           (crc32 (take (Z.to_nat p) c) 0) (mkFile c p)
         = (Ok (crc32 c 0), mkFile c q).
Proof.
  induction fuel as [|fuel IH]; intros p Hp Hfuel; [lia|].
  cbn [crc_loop]. unfold bind at 1. cbn [tell gets position].
  destruct (Z.ltb_spec p (Z.of_nat (length c))) as [Hlt|Hge].
  - unfold bind, read. rewrite file_read_small by lia.
    unfold set_position. cbn [content position].
    set (chunk := take (Z.to_nat 2097152) (drop (Z.to_nat p) c)).
    assert (0 < length chunk)%nat as Hchunk.
    { unfold chunk. rewrite length_take, length_drop. lia. }
    assert (length chunk ≤ length c - Z.to_nat p)%nat as Hchunk'.
    { unfold chunk. rewrite length_take, length_drop. lia. }
    destruct (IH (p + Z.of_nat (length chunk))) as (q & Hq & Hloop);
      [lia..|].
    exists q. split; [done|]. rewrite <- Hloop. f_equal.
    rewrite <- crc32_app. f_equal.
    replace (Z.to_nat (p + Z.of_nat (length chunk)))
      with (Z.to_nat p + length chunk)%nat by lia.
    unfold chunk. rewrite take_take_drop. rewrite length_take, length_drop.
    destruct (decide (Z.to_nat 2097152 ≤ length c - Z.to_nat p)%nat)
      as [Hle|Hgt].
    + now rewrite Nat.min_l.
    + rewrite Nat.min_r by lia. now rewrite !take_ge by lia.
  - exists p. split; [done|]. cbn [ret].
    now rewrite take_ge by lia.
Qed.

End ChecksumFacts.

(** X8: the checksum pass computes the CRC-32 of the whole file:
    carrying the running checksum over chunks of 2 MiB gives the
    checksum of all the bytes at once, masked to 32 bits, for a file of
    any length; and the cursor is back on offset 0 for the walk. The
    checksum function is any one that can be carried over a split of
    its input and gives 0 for no bytes from 0, as [binascii.crc32]
    does. *)
Theorem checksum_of_whole_file (crc32 : list byte → Z → Z) (c : list byte) :
  (∀ a b v, crc32 (a ++ b) v = crc32 b (crc32 a v)) →
  crc32 [] 0 = 0 →
  checksum_pass crc32 c
  = (Ok (Z.land (crc32 c 0) 0xFFFFFFFF), mkFile c 0).
Proof.
  intros Happ Hnil. unfold checksum_pass.
  destruct (crc_loop_spec crc32 Happ c (S (length c)) 0)
    as (q & Hq & Hloop); [lia..|].
  change (take (Z.to_nat 0) c) with (@nil byte) in Hloop.
  rewrite Hnil in Hloop.
  unfold bind. rewrite Hloop. reflexivity.
Qed.

Lemma checksum_of_whole_file_witness :
  checksum_pass crc32_ref sample_plugin
  = (Ok (Z.land (crc32_ref sample_plugin 0) 0xFFFFFFFF),
     mkFile sample_plugin 0).
Proof.
  apply (checksum_of_whole_file crc32_ref sample_plugin).
  - apply crc32_ref_app.
  - reflexivity.
Defined.

(** * The report *)

Lemma runs_ret {A} (a : A) : runs (mret a) a.
Proof. intros out. exists []. now rewrite app_nil_r. Qed.

Lemma runs_print line : runs (print line) tt.
Proof. intros out. now exists [line]. Qed.

Lemma runs_bind {A B} (m : Report A) (k : A → Report B) a b :
  runs m a → runs (k a) b → runs (m ≫= k) b.
Proof.
  intros Hm Hk out. destruct (Hm out) as [l1 E1].
  destruct (Hk (out ++ l1)) as [l2 E2]. exists (l1 ++ l2).
  unfold mbind, Report_bind. now rewrite E1, E2, app_assoc.
Qed.

Lemma runs_getitem {V} (d : gmap string V) k v :
  d !! k = Some v → runs (getitem d k) v.
Proof. intros H. unfold getitem. rewrite H. apply runs_ret. Qed.

Lemma runs_min l : l ≠ [] → ∃ m, runs (py_min l) m.
Proof. destruct l as [|x l]; [done|]. intros _. eexists. apply runs_ret. Qed.

Lemma runs_max l : l ≠ [] → ∃ m, runs (py_max l) m.
Proof. destruct l as [|x l]; [done|]. intros _. eexists. apply runs_ret. Qed.

Lemma list_field_lookup (d : gmap string (list Z)) k :
  list_field d k ≠ [] → d !! k = Some (list_field d k).
Proof. unfold list_field. now destruct (d !! k). Qed.

Ltac run_step :=
  first [ apply runs_ret | apply runs_print
        | eapply runs_bind; [apply runs_print|]
        | eapply runs_bind; [eassumption|] ].

(** The totals of a record type with a count and sizes. *)
Lemma report_totals_runs T s n sz :
  WF_rec s →
  s !! "count"%string = Some (VInt n) →
  s !! "sizes"%string = Some (VList sz) → sz ≠ [] →
  runs (report_totals T s) n.
Proof.
  intros HWF Hcount Hsizes Hne. unfold report_totals.
  destruct (runs_min sz Hne) as [mn Hmn].
  destruct (runs_max sz Hne) as [mx Hmx].
  destruct (WF_rec_int s "compressed" HWF) as [c Hc]; [now right|].
  run_step.
  eapply runs_bind.
  { eapply runs_bind; [eapply runs_getitem; eassumption|]. apply runs_ret. }
  run_step.
  eapply runs_bind.
  { eapply runs_bind; [eapply runs_getitem; eassumption|]. apply runs_ret. }
  do 2 run_step. rewrite Hc.
  eapply runs_bind; [apply runs_ret|].
  eapply runs_bind.
  { destruct (c =? n); [apply runs_print|].
    destruct (c >? 0); apply runs_print. }
  eapply runs_bind.
  { destruct (mn =? mx); repeat run_step. }
  repeat run_step.
Qed.

(** The passage of the loop for a subrecord type with counts and
    sizes. *)
Lemma report_subrecord_runs count k d :
  list_field d "counts" ≠ [] → list_field d "sizes" ≠ [] →
  runs (report_subrecord count k d) tt.
Proof.
  intros Hc Hs. unfold report_subrecord.
  destruct (runs_min _ Hc) as [cmn Hcmn].
  destruct (runs_max _ Hc) as [cmx Hcmx].
  destruct (runs_min _ Hs) as [smn Hsmn].
  destruct (runs_max _ Hs) as [smx Hsmx].
  eapply runs_bind; [now apply runs_getitem, list_field_lookup|].
  eapply runs_bind.
  { destruct (_ =? count); apply runs_print. }
  do 2 run_step.
  eapply runs_bind.
  { destruct (cmx =? cmn); repeat run_step. }
  eapply runs_bind; [now apply runs_getitem, list_field_lookup|].
  do 2 run_step.
  destruct (smx =? smn); repeat run_step.
Qed.

Lemma report_entry_runs count s k v :
  WF_rec s → complete_rec s → s !! k = Some v →
  runs (report_entry count k v) tt.
Proof.
  intros HWF [_ Hsub] Hk. unfold report_entry.
  case_decide as Hin; [apply runs_ret|].
  specialize (HWF k v Hk). destruct v as [n|l|d].
  - exfalso. apply Hin. destruct HWF as [E|E]; rewrite E; repeat constructor.
  - exfalso. apply Hin. rewrite HWF. repeat constructor.
  - eapply runs_bind; [apply runs_ret|].
    destruct (Hsub k d Hk). now apply report_subrecord_runs.
Qed.

(** X9: after a walk that returned, the report of every record type
    runs to its end: the totals find ['count'] and a list ['sizes']
    that is not empty, every passage of the loop over the keys of the
    dictionary finds lists ['counts'] and ['sizes'] that are not empty,
    so neither [KeyError] nor the [ValueError] of [min] and [max] on an
    empty list is raised, and no value has a type the report cannot
    handle. The count it prints is at least 1 and is the number of
    sizes. *)
Theorem report_after_walk (zd : list byte → option (list byte))
    (depth : nat) (c : list byte) :
  (dumpPlugin zd depth c).1 = Ok tt →
  ∀ T recStats, stats (dumpPlugin zd depth c).2 !! T = Some recStats →
    ∃ count, 0 < count
      ∧ count = Z.of_nat (length (sizes_of recStats))
      ∧ runs (report_totals T recStats) count
      ∧ ∀ subtype v, recStats !! subtype = Some v →
          runs (report_entry count subtype v) tt.
Proof.
  intros Hok T recStats Hs.
  pose proof (while_report_post zd (walk_fuel c) (Z.of_nat (length c))
                depth (Z.of_nat (length c))
                (mkWorld (mkFile c 0) ∅)) as [Hpost Hcomp].
  cbn zeta in Hpost, Hcomp. fold (dumpPlugin zd depth c) in Hpost, Hcomp.
  destruct (Hpost WF_stats_empty) as (HWF & _ & _ & _ & Hinv).
  destruct (Hinv Hok Inv_stats_empty T recStats Hs)
    as (_ & sz & Hcount & Hsizes & _).
  pose proof (Hcomp WF_stats_empty Hok complete_empty T recStats Hs) as Hc.
  pose proof (HWF T recStats Hs) as HWFr.
  assert (sizes_of recStats = sz) as Hsz by (unfold sizes_of; now rewrite Hsizes).
  destruct Hc as [Hne Hsub]. rewrite Hsz in Hne.
  exists (Z.of_nat (length sz)). split; [destruct sz; [done|simpl; lia]|].
  split; [now rewrite Hsz|].
  split; [now apply report_totals_runs with sz|].
  intros subtype v Hv. apply report_entry_runs with recStats; try done.
  split; [now rewrite Hsz|done].
Qed.

Lemma report_after_walk_witness :
  let out := dumpPlugin inflate_stored 2 sample_plugin in
  out.1 = Ok tt
  ∧ ∀ T recStats, stats out.2 !! T = Some recStats →
      ∃ count, 0 < count
        ∧ count = Z.of_nat (length (sizes_of recStats))
        ∧ runs (report_totals T recStats) count
        ∧ ∀ subtype v, recStats !! subtype = Some v →
            runs (report_entry count subtype v) tt.
Proof.
  assert ((dumpPlugin inflate_stored 2 sample_plugin).1 = Ok tt) as Hok
      by (vm_compute; reflexivity).
  split; [exact Hok|].
  exact (report_after_walk inflate_stored 2 sample_plugin Hok).
Defined.

(** ** The report after a walk that was cut short *)

Lemma report_totals_no_sizes T s n :
  s !! "count"%string = Some (VInt n) → s !! "sizes"%string = None →
  ∀ out, report_totals T s out
         = (Failed (RKeyError "sizes"),
            out ++ [" " +:+ T; "  Count: " +:+ pretty n]).
Proof.
  intros Hc Hs out. unfold report_totals, mbind, Report_bind, print, getitem.
  rewrite Hc, Hs. cbn. now rewrite <- app_assoc.
Qed.

(** X10: a compressed record of a type not met before whose payload
    cannot be inflated (fewer than four bytes of data read, or a stream
    that zlib rejects) makes the call raise, and leaves for its type a
    dictionary with a count but no sizes: the report of that type then
    fails with [KeyError] on ['sizes'], after the lines of the type and
    of its count. *)
Theorem report_fails_after_bad_payload (zd : list byte → option (list byte))
    (depth : nat) (end_ : Z) (w : World) (Type_ : string) :
  let data := record_data (ins w) in
  WF_stats (stats w) →
  header_available (ins w) → position (ins w) + 24 ≤ end_ →
  tag_at (ins w) ≠ GRUP →
  decode_ascii (tag_at (ins w)) = Ok Type_ →
  Z.land (u32_at (ins w) 8) 0x20 = 0 →
  Z.land (u32_at (ins w) 8) 0x00040000 ≠ 0 →
  (length data < 4)%nat ∨ zd (drop 4 data) = None →
  stats w !! Type_ = None →
  let out := dumpGRUPOrRecord zd (S depth) end_ w in
  (out.1 = Raise StructError ∨ out.1 = Raise ZlibError)
  ∧ ∃ recStats, stats out.2 !! Type_ = Some recStats
      ∧ ∀ lines, report_totals Type_ recStats lines
                 = (Failed (RKeyError "sizes"),
                    lines ++ [" " +:+ Type_; "  Count: 1"%string]).
Proof.
  cbn zeta. intros HWF Hav Hend Htag Hdec Hdel Hcomp Hbad Hnew.
  rewrite (dump_live_record zd depth end_ w Type_) by done. cbn zeta.
  rewrite Hnew. cbn [default from_option id].
  assert (WF_rec ∅) as HWF0 by (intros k v Hk; now rewrite lookup_empty in Hk).
  set (data := record_data (ins w)) in *.
  assert (∃ e, (e = StructError ∨ e = ZlibError)
               ∧ record_stats zd (u32_at (ins w) 8) data ∅
                 = (Raise e, <["count"%string := VInt 1]> ∅))
    as (e & He & ->).
  { destruct (decide (length data < 4)%nat) as [Hshort|Hlong].
    - exists StructError. split; [now left|].
      now rewrite record_stats_short.
    - destruct Hbad as [Hshort|Hzd]; [done|].
      exists ZlibError. split; [now right|].
      rewrite record_stats_corrupt; [done..|lia|done]. }
  cbn [fst snd stats]. split; [destruct He as [-> | ->]; auto|].
  eexists. split; [apply lookup_insert_eq|].
  intros lines. now rewrite (report_totals_no_sizes Type_ _ 1).
Qed.

Lemma report_fails_after_bad_payload_witness :
  let w := start sample_corrupt in
  let out := dumpGRUPOrRecord inflate_stored 1 54 w in
  (out.1 = Raise StructError ∨ out.1 = Raise ZlibError)
  ∧ ∃ recStats, stats out.2 !! "CELL"%string = Some recStats
      ∧ ∀ lines, report_totals "CELL" recStats lines
                 = (Failed (RKeyError "sizes"),
                    lines ++ [" " +:+ "CELL"; "  Count: 1"]%string).
Proof.
  apply (report_fails_after_bad_payload inflate_stored 0 54
           (start sample_corrupt) "CELL").
  - intros T s Hs. simpl in Hs. now rewrite lookup_empty in Hs.
  - split; vm_compute; discriminate.
  - vm_compute. discriminate.
  - vm_compute. discriminate.
  - vm_compute. reflexivity.
  - vm_compute. reflexivity.
  - vm_compute. discriminate.
  - right. vm_compute. reflexivity.
  - reflexivity.
Defined.

Lemma append_in_lookup_ne field field' s kv k :
  field ≠ field' →
  sub_dict (append_in field s kv) k !! field' = sub_dict s k !! field'.
Proof.
  intros Hf. unfold append_in. destruct (decide (kv.1 = k)) as [<-|Hne].
  - rewrite sub_dict_insert_eq. now rewrite lookup_insert_ne.
  - now rewrite sub_dict_insert_ne.
Qed.

Lemma fold_append_lookup_ne field field' tr : ∀ s k,
  field ≠ field' →
  sub_dict (fold_left (append_in field) tr s) k !! field'
  = sub_dict s k !! field'.
Proof.
  induction tr as [|kv tr IH]; intros s k Hf; [reflexivity|].
  cbn [fold_left]. rewrite IH by done. now apply append_in_lookup_ne.
Qed.

(** X11: when the parse of the subrecords raises after it has reported
    a subrecord of a type that the record type did not have before, the
    dictionary of that subrecord type is left with its sizes but
    without ['counts']: the passage of the report over it fails with
    [KeyError] on ['counts'] before it has written a line. *)
Theorem report_fails_after_bad_subrecord (data : list byte)
    (s : gmap string PyVal) (k : string) (e : exn) :
  WF_rec s → (dumpSubRecords data s).1 = Raise e →
  k ∈ (subrecords data).1.*1 → s !! k = None →
  ∃ d, (dumpSubRecords data s).2 !! k = Some (VDict d)
    ∧ list_field d "sizes" = sizes_under k (subrecords data).1
    ∧ ∀ count out, report_entry count k (VDict d) out
                   = (Failed (RKeyError "counts"), out).
Proof.
  intros HWF Hraise Hin Hnew. revert Hraise.
  rewrite dumpSubRecords_spec by now apply WF_rec_keys_ok.
  pose proof (subrecords_keys data) as Hkeys.
  set (tr := (subrecords data).1) in *.
  destruct (subrecords data).2 as [[]|e'|]; cbn [fst snd]; try discriminate.
  intros _.
  destruct (fold_append_key_is_dict "sizes" tr s k Hin) as [d Hd].
  exists d. split; [done|].
  assert (d = sub_dict (fold_left (append_in "sizes") tr s) k) as Hdeq
      by (unfold sub_dict; now rewrite Hd).
  assert (sub_dict s k = ∅) as Hempty by (unfold sub_dict; now rewrite Hnew).
  split.
  { rewrite Hdeq, fold_append_own_field, Hempty.
    unfold list_field. now rewrite lookup_empty. }
  intros count out. unfold report_entry.
  rewrite decide_False.
  2: { intros Hk. apply list_elem_of_fmap in Hin as (kv & -> & Hkv).
       rewrite Forall_forall in Hkeys. specialize (Hkeys _ Hkv).
       cbv beta in Hkeys.
       repeat (apply elem_of_cons in Hk as [Hk|Hk];
               [rewrite Hk in Hkeys; simpl in Hkeys; lia|]).
       now apply elem_of_nil in Hk. }
  unfold as_dict, report_subrecord, mbind, mret, Report_bind, Report_ret,
    getitem.
  rewrite Hdeq, (fold_append_lookup_ne "sizes" "counts") by done.
  rewrite Hempty, lookup_empty. reflexivity.
Qed.

Lemma report_fails_after_bad_subrecord_witness :
  let data := edid4 ++ [xff; x41; x42; x43; x00; x00; x00] in
  ∃ d, (dumpSubRecords data ∅).2 !! "EDID"%string = Some (VDict d)
    ∧ list_field d "sizes" = sizes_under "EDID" (subrecords data).1
    ∧ ∀ count out, report_entry count "EDID" (VDict d) out
                   = (Failed (RKeyError "counts"), out).
Proof.
  apply (report_fails_after_bad_subrecord
           (edid4 ++ [xff; x41; x42; x43; x00; x00; x00]) ∅ "EDID"
           UnicodeDecodeError).
  - intros k v Hk. now rewrite lookup_empty in Hk.
  - vm_compute. reflexivity.
  - vm_compute. left.
  - reflexivity.
Defined.

(** * The readers of [FileReader] *)

Lemma le_value_le_bytes_mod width : ∀ n,
  le_value (le_bytes width (n mod 256 ^ Z.of_nat width)) = n mod 256 ^ Z.of_nat width.
Proof.
  intros n. apply le_value_le_bytes, Z.mod_pos_bound.
  apply Z.pow_pos_nonneg; lia.
Qed.

Lemma pow256_half (width : nat) :
  (0 < width)%nat →
  256 ^ Z.of_nat width = 2 * 2 ^ (8 * Z.of_nat width - 1).
Proof.
  intros Hw. change 256 with (2 ^ 8). rewrite <- Z.pow_mul_r by lia.
  rewrite <- Z.pow_succ_r by lia. f_equal. lia.
Qed.

(** X12: the readers decode what [struct.pack] writes, little-endian
    and in two's complement: on a file that holds at the cursor the
    [width] bytes of [v mod 256^width], the unsigned reader of that
    width returns [v] for every [v] of the unsigned range, the signed
    reader returns [v] for every [v] of the signed range, and the cursor
    has moved by [width]. The width is one that a single read returns
    in full, as the widths 1, 2, 4 and 8 of the readers are. *)
Theorem readers_round_trip (width : nat) (signed : bool)
    (pre post : list byte) (v : Z) :
  Z.of_nat width ≤ READ_MAX →
  (if signed
   then - 2 ^ (8 * Z.of_nat width - 1) ≤ v < 2 ^ (8 * Z.of_nat width - 1)
   else 0 ≤ v < 256 ^ Z.of_nat width) →
  let c := pre ++ le_bytes width (v mod 256 ^ Z.of_nat width) ++ post in
  readFixed width signed (mkFile c (Z.of_nat (length pre)))
  = (Ok v, mkFile c (Z.of_nat (length pre) + Z.of_nat width)).
Proof.
  intros Hmax Hv c. unfold readFixed.
  assert (length c = (length pre + (width + length post))%nat) as Hlen
      by (unfold c; now rewrite !length_app, le_bytes_length).
  assert (read (Z.of_nat width) (mkFile c (Z.of_nat (length pre)))
          = (Ok (slice c (Z.of_nat (length pre))
                   (Z.of_nat (length pre) + Z.of_nat width)),
             mkFile c (Z.of_nat (length pre) + Z.of_nat width))) as Hread
      by (apply read_at; lia).
  rewrite (bind_ok _ _ _ _ _ Hread).
  assert (slice c (Z.of_nat (length pre))
            (Z.of_nat (length pre) + Z.of_nat width)
          = le_bytes width (v `mod` 256 ^ Z.of_nat width)) as ->
      by (apply slice_app_mid; rewrite ?le_bytes_length; reflexivity).
  unfold lift, unpack_signed, unpack_unsigned.
  rewrite !decide_True by apply le_bytes_length.
  rewrite le_value_le_bytes_mod. cbn zeta.
  destruct signed.
  - destruct width as [|w]; [simpl in Hv; lia|].
    set (W := S w) in *.
    pose proof (pow256_half W ltac:(lia)) as HM.
    assert (0 < 2 ^ (8 * Z.of_nat W - 1)) as Hhalf
        by (apply Z.pow_pos_nonneg; lia).
    rewrite HM. do 2 f_equal.
    set (h := 2 ^ (8 * Z.of_nat W - 1)) in *.
    assert (v `mod` (2 * h) = if v <? 0 then v + 2 * h else v) as ->.
    { destruct (Z.ltb_spec v 0) as [Hneg|Hpos].
      - symmetry. apply Z.mod_unique with (-1); lia.
      - apply Z.mod_small; lia. }
    destruct (Z.ltb_spec v 0) as [Hneg|Hpos].
    + destruct (Z.ltb_spec (v + 2 * h) h); lia.
    + destruct (Z.ltb_spec v h); lia.
  - now rewrite Z.mod_small.
Qed.

Lemma readers_round_trip_witness :
  let c := [x00] ++ le_bytes 4 ((-2) mod 256 ^ Z.of_nat 4) ++ [] in
  readInt32 (mkFile c (Z.of_nat (length [x00])))
  = (Ok (-2), mkFile c (Z.of_nat (length [x00]) + Z.of_nat 4)).
Proof.
  apply (readers_round_trip 4 true [x00] [] (-2)).
  - vm_compute. discriminate.
  - vm_compute. split; [discriminate|reflexivity].
Defined.

(** * The plugins to dump *)

Lemma string_length_app s1 s2 :
  String.length (s1 +:+ s2) = (String.length s1 + String.length s2)%nat.
Proof.
  induction s1 as [|a s1 IH]; [reflexivity|].
  change (String a s1 +:+ s2) with (String a (s1 +:+ s2)).
  simpl. now rewrite IH.
Qed.

Lemma substring_after s1 s2 n :
  String.substring (String.length s1) n (s1 +:+ s2) = String.substring 0 n s2.
Proof.
  induction s1 as [|a s1 IH]; [reflexivity|].
  change (String a s1 +:+ s2) with (String a (s1 +:+ s2)). exact IH.
Qed.

Lemma substring_whole s : String.substring 0 (String.length s) s = s.
Proof. induction s as [|a s IH]; simpl; [reflexivity|]. now rewrite IH. Qed.

Lemma endswith_app stem suffix : endswith (stem +:+ suffix) suffix = true.
Proof.
  unfold endswith. rewrite string_length_app.
  apply andb_true_intro. split; [apply Nat.leb_le; lia|].
  replace (String.length stem + String.length suffix - String.length suffix)%nat
    with (String.length stem) by lia.
  rewrite substring_after. apply String.eqb_eq, substring_whole.
Qed.

Lemma last_chars_app stem suffix :
  last_chars (String.length suffix) (stem +:+ suffix) = suffix.
Proof.
  unfold last_chars. rewrite string_length_app.
  replace (String.length stem + String.length suffix - String.length suffix)%nat
    with (String.length stem) by lia.
  rewrite substring_after. apply substring_whole.
Qed.

(** X13: a plugin named on the command line with its ghosted name
    loses its name: whatever stands before ['.ghost'], the candidates
    are the two files ['.ghost'] and ['.ghost.ghost'], so the plugin
    that was named is dumped only if that is its whole name. *)
Theorem ghost_name_lost (path_exists : string → bool)
    (lower : string → string) (arg stem : string) :
  lower arg = stem +:+ ".ghost" →
  plugin_name lower arg = ".ghost"%string
  ∧ to_dump_plugin path_exists lower arg
    = filter (λ x, path_exists x = true) [".ghost"; ".ghost.ghost"]%string.
Proof.
  intros Harg.
  assert (plugin_name lower arg = ".ghost"%string) as Hname.
  { unfold plugin_name. cbn zeta. rewrite Harg, endswith_app.
    exact (last_chars_app stem ".ghost"). }
  split; [exact Hname|]. unfold to_dump_plugin. cbn zeta.
  now rewrite Hname.
Qed.

Lemma ghost_name_lost_witness :
  plugin_name (λ s, s) "skyrim.esm.ghost" = ".ghost"%string
  ∧ to_dump_plugin (λ _, true) (λ s, s) "skyrim.esm.ghost"
    = filter (λ x, (λ _ : string, true) x = true)
        [".ghost"; ".ghost.ghost"]%string.
Proof.
  apply (ghost_name_lost (λ _, true) (λ s, s) "skyrim.esm.ghost"
           "skyrim.esm").
  reflexivity.
Defined.

Lemma ghosted_ne (p : string) : p +:+ ".ghost" ≠ p.
Proof.
  intros H. apply (f_equal String.length) in H.
  rewrite string_length_app in H. simpl in H. lia.
Qed.

Lemma ghosted_twice_ne (p : string) : (p +:+ ".ghost") +:+ ".ghost" ≠ p.
Proof.
  intros H. apply (f_equal String.length) in H.
  rewrite !string_length_app in H. simpl in H. lia.
Qed.

(** X14: for a plugin named on the command line, the warning about a
    plugin present both plain and ghosted lists the plugin exactly when
    both candidate files exist, and lists nothing otherwise. *)
Theorem dupes_when_both_exist (path_exists : string → bool)
    (lower : string → string) (arg : string) :
  let plugin := plugin_name lower arg in
  dupes (to_dump_plugin path_exists lower arg)
  = if path_exists plugin && path_exists (plugin +:+ ".ghost")
    then [plugin] else [].
Proof.
  cbn zeta. unfold to_dump_plugin. cbn zeta.
  set (p := plugin_name lower arg).
  pose proof (ghosted_ne p) as H1.
  pose proof (ghosted_ne (p +:+ ".ghost")) as H2.
  pose proof (ghosted_twice_ne p) as H3.
  assert (filter (λ x, path_exists x = true) [p; p +:+ ".ghost"]
          = (if path_exists p then [p] else [])
            ++ (if path_exists (p +:+ ".ghost") then [p +:+ ".ghost"] else []))
    as ->.
  { destruct (path_exists p) eqn:Ep;
      destruct (path_exists (p +:+ ".ghost")) eqn:Eg;
      repeat first [ rewrite filter_cons_True by congruence
                   | rewrite filter_cons_False by congruence ];
      reflexivity. }
  unfold dupes.
  destruct (path_exists p); destruct (path_exists (p +:+ ".ghost"));
    cbn [andb app].
  - rewrite filter_cons_True by (right; left).
    rewrite filter_cons_False; [done|].
    intros Hin. apply elem_of_cons in Hin as [Hin|Hin]; [done|].
    apply elem_of_cons in Hin as [Hin|Hin]; [done|].
    now apply elem_of_nil in Hin.
  - rewrite filter_cons_False; [done|].
    intros Hin. apply elem_of_cons in Hin as [Hin|Hin]; [done|].
    now apply elem_of_nil in Hin.
  - rewrite filter_cons_False; [done|].
    intros Hin. apply elem_of_cons in Hin as [Hin|Hin]; [done|].
    now apply elem_of_nil in Hin.
  - reflexivity.
Qed.
